(** * unified-ai-api: fallback chain, provider registry, cost table and
      session stores, embedded from the Python sources and verified.

    Layout: Part I holds the embedding (one module per source file),
    Part II the lemmas and theorems about it.

    Modelling conventions
    - Python [str] is [string]; [int] is [Z]; [float] quantities (prices,
      temperatures, clock readings) are exact rationals [Q].
    - [datetime] values are naive UTC instants, totally ordered, kept as the
      number of microseconds since the epoch.
    - A client object is a record carrying the identity of the object
      ([obj_id]); Python's default [==] on such objects is identity.
    - A [dict] whose iteration order is observable is an association list in
      insertion order; a [dict] only used as a finite map is a [gmap]. *)

From Stdlib Require Import ZArith QArith List String Ascii Bool Lia DecimalString DecimalZ.
From stdpp Require Import base option list strings gmap pretty sorting.

Open Scope Z_scope.

(* ===================================================================== *)
(** * Part I: the embedding                                                *)
(* ===================================================================== *)

(** ** Python helpers shared by the modules *)

Module Py.

(** [sep.join(parts)]. *)
Fixpoint join (sep : string) (parts : list string) : string :=
  match parts with
  | [] => ""
  | [p] => p
  | p :: rest => p +:+ sep +:+ join sep rest
  end.

(** Truthiness of a [str | None] value: [None] and [""] are falsy. *)
Definition truthy (v : option string) : bool :=
  match v with
  | Some s => negb (String.eqb s "")
  | None => false
  end.

(** ASCII part of [str.lower]. *)
Definition lower_ascii (c : ascii) : ascii :=
  let n := nat_of_ascii c in
  if ((65 <=? n)%nat && (n <=? 90)%nat)%bool then ascii_of_nat (n + 32) else c.

Fixpoint lower (s : string) : string :=
  match s with
  | EmptyString => EmptyString
  | String c r => String (lower_ascii c) (lower r)
  end.

(** Characters removed by [str.strip()] (ASCII range). *)
Definition is_space (c : ascii) : bool :=
  let n := nat_of_ascii c in
  ((9 <=? n)%nat && (n <=? 13)%nat) || ((28 <=? n)%nat && (n <=? 32)%nat).

Fixpoint lstrip (s : string) : string :=
  match s with
  | EmptyString => EmptyString
  | String c r => if is_space c then lstrip r else s
  end.

(** [rstrip] keeps a character when it is not a space or when something
    non-blank follows it. *)
Fixpoint rstrip (s : string) : string :=
  match s with
  | EmptyString => EmptyString
  | String c r =>
      match rstrip r with
      | EmptyString => if is_space c then EmptyString else String c EmptyString
      | r' => String c r'
      end
  end.

Definition strip (s : string) : string := rstrip (lstrip s).

(** [s.split(sep)] for a one-character separator: never returns the empty
    list, [''.split(',') == ['']]. *)
Fixpoint split (sep : ascii) (s : string) : list string :=
  match s with
  | EmptyString => [EmptyString]
  | String c r =>
      if Ascii.eqb c sep then EmptyString :: split sep r
      else match split sep r with
           | [] => [String c EmptyString]
           | h :: t => String c h :: t
           end
  end.


End Py.

(** ** core/llm_client.py *)

Module LLM.

Inductive ProviderName := GROQ | GEMINI | OPENAI | ANTHROPIC.

(** [ProviderName.X.value]. *)
Definition value (p : ProviderName) : string :=
  match p with
  | GROQ => "groq"
  | GEMINI => "gemini"
  | OPENAI => "openai"
  | ANTHROPIC => "anthropic"
  end.

Definition datetime := Z.

Record Message := { role : string; content : string }.

Record CompletionResult := {
  cr_content : string;
  cr_provider : ProviderName;
  cr_model : string;
  input_tokens : Z;
  output_tokens : Z;
  cr_latency_ms : Q;
  cost_usd : Q;
  cr_timestamp : datetime
}.

Record ProviderError := {
  pe_provider : ProviderName;
  message : string;
  status_code : option Z;
  retryable : bool
}.

(** [ProviderError.__str__]. *)
Definition str (e : ProviderError) : string :=
  value (pe_provider e) +:+ ": " +:+ message e.

(** A client object: [obj_id] is the identity of the Python object,
    [name] the provider its class reports, [api_key] and [model] the
    constructor arguments kept by [LLMClient.__init__]. *)
Record LLMClient := {
  obj_id : nat;
  name : ProviderName;
  api_key : string;
  model : string
}.

(** [a == b] on client objects: no [__eq__] is defined, so identity. *)
Definition client_eq (a b : LLMClient) : bool := Nat.eqb (obj_id a) (obj_id b).

(** What one call of [provider.complete(...)] does: return a result, raise
    [ProviderError], or raise something else. *)
Inductive Reply :=
| Completed (result : CompletionResult)
| Failed (e : ProviderError)
| Crashed (exn : string).

(** The outside world as the chain sees it: calling a backend answers and
    moves the world on; the two clocks are read off the world. *)
Record Env (World : Type) := {
  provider_complete :
    LLMClient -> list Message -> Z -> Q -> World -> Reply * World;
  perf_counter : World -> Q;
  utcnow : World -> datetime
}.
Arguments provider_complete {World}.
Arguments perf_counter {World}.
Arguments utcnow {World}.

(** [LLMClient.health_check]: a minimal completion; [True] when it
    returns, [False] on [ProviderError], any other exception escapes. *)
Definition health_check (reply : Reply) : bool + string :=
  match reply with
  | Completed _ => inl true
  | Failed _ => inl false
  | Crashed exn => inr exn
  end.

End LLM.

(** ** core/providers/groq.py *)

Module Groq.

Record Pricing := { input : Q; output : Q }.

(** Groq pricing per 1M tokens. *)
Definition GROQ_PRICING : gmap string Pricing :=
  list_to_map
    [ ("llama-3.3-70b-versatile", {| input := 59 # 100; output := 79 # 100 |});
      ("llama-3.1-70b-versatile", {| input := 59 # 100; output := 79 # 100 |});
      ("llama-3.1-8b-instant", {| input := 5 # 100; output := 8 # 100 |});
      ("mixtral-8x7b-32768", {| input := 24 # 100; output := 24 # 100 |});
      ("gemma2-9b-it", {| input := 20 # 100; output := 20 # 100 |}) ].

(** Default pricing for unknown models. *)
Definition DEFAULT_PRICING : Pricing := {| input := 50 # 100; output := 50 # 100 |}.

(** [GroqClient.estimate_cost], for a client whose model is [model]. *)
Definition estimate_cost (model : string) (input_tokens output_tokens : Z) : Q :=
  let pricing := default DEFAULT_PRICING (GROQ_PRICING !! model) in
  let input_cost := ((inject_Z input_tokens / 1000000) * input pricing)%Q in
  let output_cost := ((inject_Z output_tokens / 1000000) * output pricing)%Q in
  (input_cost + output_cost)%Q.

End Groq.

(** ** config.py *)

Module Config.

(** The fields of [Settings] the registry reads. *)
Record Settings := {
  groq_api_key : option string;
  google_api_key : option string;
  openai_api_key : option string;
  anthropic_api_key : option string;
  llm_provider_order : string;
  groq_model : string;
  gemini_model : string;
  openai_model : string;
  anthropic_model : string
}.

(** [Settings.provider_order]:
    [[p.strip().lower() for p in self.llm_provider_order.split(",")]]. *)
Definition provider_order (s : Settings) : list string :=
  List.map (fun p => Py.lower (Py.strip p)) (Py.split "," (llm_provider_order s)).

(** [Settings.available_providers]: the providers that have an API key
    configured. *)
Definition available_providers (s : Settings) : list string :=
  (if Py.truthy (groq_api_key s) then ["groq"] else []) ++
  (if Py.truthy (google_api_key s) then ["gemini"] else []) ++
  (if Py.truthy (openai_api_key s) then ["openai"] else []) ++
  (if Py.truthy (anthropic_api_key s) then ["anthropic"] else []).

End Config.

(** ** core/fallback.py *)

Module Fallback.
Import LLM.

(** Record of a fallback attempt. *)
Record FallbackAttempt := {
  provider : ProviderName;
  success : bool;
  error : option string;
  latency_ms : Q;
  timestamp : datetime
}.

(** Result from the fallback chain. *)
Record FallbackResult := {
  result : CompletionResult;
  attempts : list FallbackAttempt
}.

(** Whether fallback was needed: [len(self.attempts) > 1]. *)
Definition fallback_used (r : FallbackResult) : bool :=
  (1 <? length (attempts r))%nat.

(** The exception object: the attempts it carries and the text passed to
    [Exception.__init__]. *)
Record AllProvidersFailedError := {
  err_attempts : list FallbackAttempt;
  err_text : string
}.

(** [[f"{a.provider.value}: {a.error}" for a in attempts if a.error]]. *)
Fixpoint error_lines (attempts : list FallbackAttempt) : list string :=
  match attempts with
  | [] => []
  | a :: rest =>
      if Py.truthy (error a)
      then (value (provider a) +:+ ": " +:+ default "" (error a)) :: error_lines rest
      else error_lines rest
  end.

(** [AllProvidersFailedError.__init__]. *)
Definition AllProvidersFailedError_init (attempts : list FallbackAttempt)
  : AllProvidersFailedError :=
  {| err_attempts := attempts;
     err_text := "All providers failed: " +:+ Py.join "; " (error_lines attempts) |}.

(** *** The registry *)

(** [create_provider]. Each constructed client is a new object; [fresh] is
    the identity the allocator hands out for it. *)
Definition create_provider (fresh : nat) (provider_name : string)
    (settings : Config.Settings) : option LLMClient :=
  let provider_name := Py.lower provider_name in
  if String.eqb provider_name "groq" && Py.truthy (Config.groq_api_key settings) then
    Some {| obj_id := fresh; name := GROQ;
            api_key := default "" (Config.groq_api_key settings);
            model := Config.groq_model settings |}
  else if String.eqb provider_name "gemini" && Py.truthy (Config.google_api_key settings) then
    Some {| obj_id := fresh; name := GEMINI;
            api_key := default "" (Config.google_api_key settings);
            model := Config.gemini_model settings |}
  else if String.eqb provider_name "openai" && Py.truthy (Config.openai_api_key settings) then
    Some {| obj_id := fresh; name := OPENAI;
            api_key := default "" (Config.openai_api_key settings);
            model := Config.openai_model settings |}
  else None.

(** The loop of [create_provider_chain] over the remaining names;
    [providers] is the list built so far, [fresh] the next unused object
    identity. *)
Fixpoint create_provider_chain_loop (names : list string)
    (settings : Config.Settings) (fresh : nat) (providers : list LLMClient)
  : list LLMClient :=
  match names with
  | [] => providers
  | provider_name :: rest =>
      match create_provider fresh provider_name settings with
      | Some client =>
          create_provider_chain_loop rest settings (S fresh) (providers ++ [client])
      | None => create_provider_chain_loop rest settings fresh providers
      end
  end.

(** [create_provider_chain]; [fresh] is the first unused object identity. *)
Definition create_provider_chain (fresh : nat) (settings : Config.Settings)
  : list LLMClient :=
  create_provider_chain_loop (Config.provider_order settings) settings fresh [].

(** *** FallbackChain.complete *)

(** Where an [AllProvidersFailedError] is raised: the fail-fast [raise]
    inside the loop, or the [raise] after the loop. *)
Inductive RaiseSite := InLoop | AfterLoop.

Inductive Outcome :=
| Returned (r : FallbackResult)
| Raised (site : RaiseSite) (e : AllProvidersFailedError)
| Propagated (exn : string).

(** One run of [complete]: how it ended, the clients whose [complete] was
    called (in call order), and the world it left behind. *)
Record Run (World : Type) := {
  outcome : Outcome;
  invoked : list LLMClient;
  final : World
}.
Arguments outcome {World}.
Arguments invoked {World}.
Arguments final {World}.

Section Chain.
Context {World : Type} (env : Env World).
(** [self.providers] and [self.on_fallback]. *)
Variable providers : list LLMClient.
Variable on_fallback : option (FallbackAttempt -> World -> World).
Variables (messages : list Message) (max_tokens : Z) (temperature : Q).

(** [provider == self.providers[-1]]; inside the loop the list is not
    empty, so the index never fails. *)
Definition is_last_provider (p : LLMClient) : bool :=
  from_option (client_eq p) false (last providers).

(** [if self.on_fallback: self.on_fallback(attempt)]; the observer is taken
    to return normally. *)
Definition notify (attempt : FallbackAttempt) (w : World) : World :=
  match on_fallback with
  | Some callback => callback attempt w
  | None => w
  end.

(** The two [FallbackAttempt(...)] records the loop builds; [elapsed] is
    the measured latency and [w] the world at construction, whose wall
    clock fills [timestamp]. *)
Definition success_attempt (p : LLMClient) (elapsed : Q) (w : World) : FallbackAttempt :=
  {| provider := name p; success := true; error := None;
     latency_ms := elapsed; timestamp := utcnow env w |}.

Definition failure_attempt (p : LLMClient) (e : ProviderError) (elapsed : Q) (w : World)
  : FallbackAttempt :=
  {| provider := name p; success := false; error := Some (str e);
     latency_ms := elapsed; timestamp := utcnow env w |}.

(** [(time.perf_counter() - start_time) * 1000] between two worlds. *)
Definition elapsed_ms (w w1 : World) : Q :=
  ((perf_counter env w1 - perf_counter env w) * 1000)%Q.

(** The [for provider in self.providers] loop, from the remaining
    providers [rest] on. *)
Fixpoint complete_loop (rest : list LLMClient) (attempts : list FallbackAttempt)
    (calls : list LLMClient) (w : World) : Run World :=
  match rest with
  | [] =>
      {| outcome := Raised AfterLoop (AllProvidersFailedError_init attempts);
         invoked := calls; final := w |}
  | p :: rest' =>
      let (reply, w1) := provider_complete env p messages max_tokens temperature w in
      match reply with
      | Completed res =>
          let attempt := success_attempt p (elapsed_ms w w1) w1 in
          {| outcome := Returned {| result := res; attempts := attempts ++ [attempt] |};
             invoked := calls ++ [p]; final := w1 |}
      | Failed e =>
          let attempt := failure_attempt p e (elapsed_ms w w1) w1 in
          let attempts' := attempts ++ [attempt] in
          let w2 := notify attempt w1 in
          if negb (retryable e) && is_last_provider p then
            {| outcome := Raised InLoop (AllProvidersFailedError_init attempts');
               invoked := calls ++ [p]; final := w2 |}
          else complete_loop rest' attempts' (calls ++ [p]) w2
      | Crashed exn =>
          {| outcome := Propagated exn; invoked := calls ++ [p]; final := w1 |}
      end
  end.

Definition complete (w : World) : Run World := complete_loop providers [] [] w.

(** *** Vocabulary for statements about a run *)

(** The clients of [pre], called one after the other from world [w], all
    raise [ProviderError]: the errors, the failure records and the world
    reached (the observer has been told of each failure). [None] when
    one of them does anything else. *)
Fixpoint fail_through (pre : list LLMClient) (w : World)
  : option (list ProviderError * list FallbackAttempt * World) :=
  match pre with
  | [] => Some ([], [], w)
  | p :: rest =>
      let (reply, w1) := provider_complete env p messages max_tokens temperature w in
      match reply with
      | Failed e =>
          let attempt := failure_attempt p e (elapsed_ms w w1) w1 in
          match fail_through rest (notify attempt w1) with
          | Some (es, atts, w') => Some (e :: es, attempt :: atts, w')
          | None => None
          end
      | _ => None
      end
  end.

(** The failure of client [p] with error [e] does not hit the fail-fast
    test. *)
Definition passes_on (p : LLMClient) (e : ProviderError) : Prop :=
  retryable e = true \/ is_last_provider p = false.

End Chain.

(** *** FallbackChain.health_check *)

(** When a launched probe finishes, in seconds after its launch. *)
Inductive ProbeTiming := Finishes (seconds : Q) | Never.

(** One launched probe: when [provider.health_check()] finishes and what
    the completion call inside it does. *)
Record Probe := { timing : ProbeTiming; reply : Reply }.

Inductive Waited :=
| Got (healthy : bool)
| TimeoutError
| OtherError (exn : string).

(** [asyncio.wait_for(provider.health_check(), timeout)]: the probe's own
    outcome when it finishes within [timeout], [TimeoutError] when it runs
    longer. *)
Definition wait_for (p : Probe) (timeout : Q) : Waited :=
  match timing p with
  | Never => TimeoutError
  | Finishes d =>
      if Qle_bool d timeout then
        match health_check (reply p) with
        | inl healthy => Got healthy
        | inr exn => OtherError exn
        end
      else TimeoutError
  end.

(** The inner [check_provider]: a pair, or the exception that escapes. *)
Definition check_provider (provider : LLMClient) (p : Probe) : (string * bool) + string :=
  match wait_for p 10 with
  | Got healthy => inl (value (name provider), healthy)
  | TimeoutError => inl (value (name provider), false)
  | OtherError exn => inr exn
  end.

(** The loop over the gathered results. *)
Fixpoint collect (checks : list ((string * bool) + string)) (results : gmap string bool)
  : gmap string bool :=
  match checks with
  | [] => results
  | inr _ :: rest => collect rest results
  | inl (name, healthy) :: rest => collect rest (<[name := healthy]> results)
  end.

(** [health_check] over the configured providers, each paired with what
    its probe does. [asyncio.gather] returns the results in list order. *)
Definition health_check (probes : list (LLMClient * Probe)) : gmap string bool :=
  collect (List.map (fun cp => check_provider (fst cp) (snd cp)) probes) ∅.

End Fallback.

(** ** api/routes/health.py *)

Module HealthRoute.

(** [any(provider_health.values()) if provider_health else False]. *)
Definition any_healthy (provider_health : gmap string bool) : bool :=
  existsb (fun kv => snd kv) (map_to_list provider_health).

(** The [status] field of the response. *)
Definition status (provider_health : gmap string bool) : string :=
  if any_healthy provider_health then "healthy" else "degraded".

End HealthRoute.

(** ** core/products.py *)

Module Products.

Inductive ProductType :=
| CHATBOT | WRITING_HELPER | CODE_REVIEWER | SUPPORT_BOT | CONTENT_SUMMARIZER.

(** [ProductType.X.value]. *)
Definition value (p : ProductType) : string :=
  match p with
  | CHATBOT => "chatbot"
  | WRITING_HELPER => "writing_helper"
  | CODE_REVIEWER => "code_reviewer"
  | SUPPORT_BOT => "support_bot"
  | CONTENT_SUMMARIZER => "content_summarizer"
  end.

(** [ProductType(s)]; [None] stands for the [ValueError]. *)
Definition of_value (s : string) : option ProductType :=
  if String.eqb s "chatbot" then Some CHATBOT
  else if String.eqb s "writing_helper" then Some WRITING_HELPER
  else if String.eqb s "code_reviewer" then Some CODE_REVIEWER
  else if String.eqb s "support_bot" then Some SUPPORT_BOT
  else if String.eqb s "content_summarizer" then Some CONTENT_SUMMARIZER
  else None.

End Products.

(** ** Python dictionaries in insertion order *)

Module PyDict.

Section Ops.
Context {K V : Type} `{EqDecision K}.

(** [d.get(k)]. *)
Fixpoint get (d : list (K * V)) (k : K) : option V :=
  match d with
  | [] => None
  | (k', v) :: rest => if decide (k' = k) then Some v else get rest k
  end.

(** [k in d]. *)
Definition mem (d : list (K * V)) (k : K) : bool :=
  match get d k with Some _ => true | None => false end.

(** [d[k] = v]: an existing key keeps its place, a new key goes last. *)
Fixpoint set (d : list (K * V)) (k : K) (v : V) : list (K * V) :=
  match d with
  | [] => [(k, v)]
  | (k', v') :: rest =>
      if decide (k' = k) then (k, v) :: rest else (k', v') :: set rest k v
  end.

(** [del d[k]] for a key that is present. *)
Fixpoint del (d : list (K * V)) (k : K) : list (K * V) :=
  match d with
  | [] => []
  | (k', v') :: rest =>
      if decide (k' = k) then del rest k else (k', v') :: del rest k
  end.

(** [dict(pairs)]: later pairs overwrite earlier ones. *)
Definition of_pairs (pairs : list (K * V)) : list (K * V) :=
  fold_left (fun d kv => set d (fst kv) (snd kv)) pairs [].

(** The scan of [min(d.keys(), key=lambda k: f(d[k]))] once a first
    candidate is held: a later key replaces it only when strictly
    smaller. *)
Fixpoint min_from (f : V -> Z) (best : K * V) (rest : list (K * V)) : K :=
  match rest with
  | [] => fst best
  | kv :: rest' =>
      if f (snd kv) <? f (snd best) then min_from f kv rest' else min_from f best rest'
  end.

(** [min(d.keys(), key=lambda k: f(d[k]))]; [None] stands for the
    [ValueError] Python raises on an empty dictionary. *)
Definition min_key (f : V -> Z) (d : list (K * V)) : option K :=
  match d with
  | [] => None
  | kv :: rest => Some (min_from f kv rest)
  end.

(** The invariant of a dictionary: no key twice. *)
Definition wf (d : list (K * V)) : Prop := NoDup (List.map fst d).

End Ops.

End PyDict.

(** ** storage/session.py *)

Module Storage.
Import LLM Products.

(** Python values that can sit in [Session.metadata]. *)
Inductive pykey := KStr (s : string) | KInt (n : Z).

#[local] Unset Elimination Schemes.
Inductive pyval :=
| PNone
| PBool (b : bool)
| PInt (n : Z)
| PStr (s : string)
| PList (l : list pyval)
| PTuple (l : list pyval)
| PDict (d : list (pykey * pyval))
| PObject (repr : string).   (* anything [json] cannot encode: a set, bytes, ... *)
#[local] Set Elimination Schemes.

#[global] Instance pykey_eq_dec : EqDecision pykey.
Proof. solve_decision. Defined.

(** A conversation session. *)
Record Session := {
  session_id : string;
  product : ProductType;
  messages : list Message;
  created_at : datetime;
  updated_at : datetime;
  metadata : list (pykey * pyval)
}.

Definition message_count (s : Session) : nat := length (messages s).

(** [Session.add_message]; [now] is what [datetime.utcnow()] reads. *)
Definition add_message (now : datetime) (s : Session) (m : Message) : Session :=
  {| session_id := session_id s; product := product s;
     messages := messages s ++ [m];
     created_at := created_at s; updated_at := now;
     metadata := metadata s |}.

(** Outcome of a call that may raise. *)
Inductive result (A : Type) :=
| Ok (a : A)
| Raise (exn : string).
Arguments Ok {A}.
Arguments Raise {A}.

(** *** InMemorySessionStorage *)

Module InMemory.

Record InMemorySessionStorage := {
  _sessions : list (string * Session);
  _max_sessions : Z
}.

(** [InMemorySessionStorage(max_sessions)]. *)
Definition init (max_sessions : Z) : InMemorySessionStorage :=
  {| _sessions := []; _max_sessions := max_sessions |}.

(** [f"{product.value}:{session_id}"]. *)
Definition _make_key (session_id : string) (product : ProductType) : string :=
  Products.value product +:+ ":" +:+ session_id.

Definition get (st : InMemorySessionStorage) (session_id : string)
    (product : ProductType) : option Session :=
  let key := _make_key session_id product in
  PyDict.get (_sessions st) key.

Definition save (st : InMemorySessionStorage) (session : Session)
  : result InMemorySessionStorage :=
  let key := _make_key (Storage.session_id session) (Storage.product session) in
  if negb (PyDict.mem (_sessions st) key)
     && (_max_sessions st <=? Z.of_nat (length (_sessions st))) then
    match PyDict.min_key updated_at (_sessions st) with
    | None => Raise "ValueError"
    | Some oldest_key =>
        Ok {| _sessions := PyDict.set (PyDict.del (_sessions st) oldest_key) key session;
              _max_sessions := _max_sessions st |}
    end
  else
    Ok {| _sessions := PyDict.set (_sessions st) key session;
          _max_sessions := _max_sessions st |}.

Definition delete (st : InMemorySessionStorage) (session_id : string)
    (product : ProductType) : bool * InMemorySessionStorage :=
  let key := _make_key session_id product in
  if PyDict.mem (_sessions st) key then
    (true, {| _sessions := PyDict.del (_sessions st) key;
              _max_sessions := _max_sessions st |})
  else (false, st).

End InMemory.

(** *** RedisSessionStorage *)

(** A JSON document. The stored text is kept as the document it denotes:
    writing a document out and parsing the text back is lossless. *)
#[local] Unset Elimination Schemes.
Inductive json :=
| JNull
| JBool (b : bool)
| JInt (n : Z)
| JStr (s : string)
| JArr (l : list json)
| JObj (o : list (string * json)).
#[local] Set Elimination Schemes.

Module Json.

(** How [json.dumps] writes a dictionary key: strings as they are,
    integers in decimal. *)
Definition key_text (k : pykey) : string :=
  match k with
  | KStr s => s
  | KInt n => pretty n
  end.

(** [json.dumps]: lists and tuples both become arrays, every dictionary
    key becomes a string; [None] stands for the [TypeError] raised on a
    value that cannot be encoded. *)
Fixpoint dumps (v : pyval) : option json :=
  match v with
  | PNone => Some JNull
  | PBool b => Some (JBool b)
  | PInt n => Some (JInt n)
  | PStr s => Some (JStr s)
  | PList l | PTuple l =>
      option_map JArr
        ((fix items (l : list pyval) : option (list json) :=
            match l with
            | [] => Some []
            | x :: r =>
                match dumps x, items r with
                | Some a, Some b => Some (a :: b)
                | _, _ => None
                end
            end) l)
  | PDict d =>
      option_map JObj
        ((fix entries (d : list (pykey * pyval)) : option (list (string * json)) :=
            match d with
            | [] => Some []
            | (k, x) :: r =>
                match dumps x, entries r with
                | Some a, Some b => Some ((key_text k, a) :: b)
                | _, _ => None
                end
            end) d)
  | PObject _ => None
  end.

(** [json.loads]: arrays become lists, objects become dictionaries with
    string keys (a repeated key keeps its last value). *)
Fixpoint loads (j : json) : pyval :=
  match j with
  | JNull => PNone
  | JBool b => PBool b
  | JInt n => PInt n
  | JStr s => PStr s
  | JArr l => PList (List.map loads l)
  | JObj o => PDict (PyDict.of_pairs (List.map (fun kv => (KStr (fst kv), loads (snd kv))) o))
  end.

End Json.

(** [datetime.isoformat] and [datetime.fromisoformat] ([None]: the
    [ValueError] on a string that is no date). *)
Record DateCodec := {
  isoformat : datetime -> string;
  fromisoformat : string -> option datetime
}.

Module Redis.

(** The state: the configured TTL and the keyspace of the server, each
    record with the instant (in seconds) at which it expires. *)
Record RedisSessionStorage := {
  _ttl : Z;
  keyspace : gmap string (json * Z)
}.

(** [RedisSessionStorage(redis_url, ttl_seconds)] against an empty
    server. *)
Definition init (ttl_seconds : Z) : RedisSessionStorage :=
  {| _ttl := ttl_seconds; keyspace := ∅ |}.

(** [f"session:{product.value}:{session_id}"]. *)
Definition _make_key (session_id : string) (product : ProductType) : string :=
  "session:" +:+ Products.value product +:+ ":" +:+ session_id.

(** Server side of [GET key] at instant [now]. *)
Definition client_get (ks : gmap string (json * Z)) (now : Z) (key : string)
  : option json :=
  match ks !! key with
  | Some (data, expires) => if now <? expires then Some data else None
  | None => None
  end.

(** Server side of [SETEX key ttl data] at instant [now]; a TTL that is
    not positive is refused. *)
Definition client_setex (ks : gmap string (json * Z)) (now : Z) (key : string)
    (ttl : Z) (data : json) : result (gmap string (json * Z)) :=
  if 0 <? ttl then Ok (<[key := (data, now + ttl)]> ks)
  else Raise "ResponseError".

(** Server side of [DEL key] at instant [now]: the number of keys
    removed. *)
Definition client_delete (ks : gmap string (json * Z)) (now : Z) (key : string)
  : Z * gmap string (json * Z) :=
  match client_get ks now key with
  | Some _ => (1, delete key ks)
  | None => (0, delete key ks)
  end.

Section WithCodec.
Variable codec : DateCodec.

(** The [data] dictionary built by [save]. *)
Definition to_data (session : Session) : pyval :=
  PDict
    [ (KStr "session_id", PStr (session_id session));
      (KStr "product", PStr (Products.value (product session)));
      (KStr "messages",
         PList (List.map (fun m => PDict [ (KStr "role", PStr (role m));
                                         (KStr "content", PStr (content m)) ])
                         (messages session)));
      (KStr "created_at", PStr (isoformat codec (created_at session)));
      (KStr "updated_at", PStr (isoformat codec (updated_at session)));
      (KStr "metadata", PDict (metadata session)) ].

(** [Message] called with the entries of [m] as keywords: exactly
    [role] and [content]. *)
Definition to_message (m : pyval) : option Message :=
  match m with
  | PDict d =>
      match PyDict.get d (KStr "role"), PyDict.get d (KStr "content") with
      | Some (PStr r), Some (PStr c) =>
          if (length d =? 2)%nat then Some {| role := r; content := c |} else None
      | _, _ => None
      end
  | _ => None
  end.

Fixpoint to_messages (l : list pyval) : option (list Message) :=
  match l with
  | [] => Some []
  | m :: rest =>
      match to_message m, to_messages rest with
      | Some a, Some b => Some (a :: b)
      | _, _ => None
      end
  end.

Definition get_str (d : list (pykey * pyval)) (k : string) : option string :=
  match PyDict.get d (KStr k) with
  | Some (PStr s) => Some s
  | _ => None
  end.

(** The [Session(...)] call of [get] on the parsed dictionary; [None]
    stands for any exception raised on the way. *)
Definition of_data (session_data : pyval) : option Session :=
  match session_data with
  | PDict d =>
      sid ← get_str d "session_id";
      prod ← get_str d "product" ≫= Products.of_value;
      msgs ← match PyDict.get d (KStr "messages") with
             | Some (PList l) => to_messages l
             | _ => None
             end;
      created ← get_str d "created_at" ≫= fromisoformat codec;
      updated ← get_str d "updated_at" ≫= fromisoformat codec;
      meta ← match PyDict.get d (KStr "metadata") with
             | Some (PDict md) => Some md
             | Some _ => None
             | None => Some []
             end;
      Some {| session_id := sid; product := prod; messages := msgs;
              created_at := created; updated_at := updated; metadata := meta |}
  | _ => None
  end.

Definition get (st : RedisSessionStorage) (now : Z) (session_id : string)
    (product : ProductType) : result (option Session) :=
  let key := _make_key session_id product in
  match client_get (keyspace st) now key with
  | None => Ok None
  | Some data =>
      match of_data (Json.loads data) with
      | Some session => Ok (Some session)
      | None => Raise "Exception"
      end
  end.

Definition save (st : RedisSessionStorage) (now : Z) (session : Session)
  : result RedisSessionStorage :=
  let key := _make_key (Storage.session_id session) (Storage.product session) in
  match Json.dumps (to_data session) with
  | None => Raise "TypeError"
  | Some text =>
      match client_setex (keyspace st) now key (_ttl st) text with
      | Ok ks => Ok {| _ttl := _ttl st; keyspace := ks |}
      | Raise exn => Raise exn
      end
  end.

End WithCodec.

Definition delete (st : RedisSessionStorage) (now : Z) (session_id : string)
    (product : ProductType) : bool * RedisSessionStorage :=
  let key := _make_key session_id product in
  let (removed, ks) := client_delete (keyspace st) now key in
  (0 <? removed, {| _ttl := _ttl st; keyspace := ks |}).

End Redis.

End Storage.

(** ** Concrete chains used to exercise the statements *)

Module Scenario.
Import LLM Fallback.

(** A world that only counts the backend calls made so far; both clocks
    read that count. What a client answers is fixed per client object. *)
Definition counting_env (behaviour : LLMClient -> Reply) : Env nat :=
  {| provider_complete := fun c _ _ _ w => (behaviour c, S w);
     perf_counter := fun w => inject_Z (Z.of_nat w);
     utcnow := fun w => Z.of_nat w |}.

Definition client_a : LLMClient :=
  {| obj_id := 0; name := GROQ; api_key := "key-a"; model := "llama-3.3-70b-versatile" |}.
Definition client_b : LLMClient :=
  {| obj_id := 1; name := GEMINI; api_key := "key-b"; model := "gemini-1.5-flash" |}.
Definition client_c : LLMClient :=
  {| obj_id := 2; name := OPENAI; api_key := "key-c"; model := "gpt-4o-mini" |}.

(** A request the provider rejects outright: not retryable. *)
Definition bad_request : ProviderError :=
  {| pe_provider := GROQ; message := "invalid request"; status_code := Some 400;
     retryable := false |}.

Definition rate_limited : ProviderError :=
  {| pe_provider := GEMINI; message := "Rate limit exceeded: slow down";
     status_code := Some 429; retryable := true |}.

Definition answer : CompletionResult :=
  {| cr_content := "Hello"; cr_provider := GEMINI; cr_model := "gemini-1.5-flash";
     input_tokens := 10; output_tokens := 5; cr_latency_ms := 100; cost_usd := 1 # 10000;
     cr_timestamp := 0 |}.

(** [client_a] rejects every request, every other client answers. *)
Definition a_rejects (c : LLMClient) : Reply :=
  if Nat.eqb (obj_id c) 0 then Failed bad_request else Completed answer.

(** [client_a] rejects every request, every other client is rate limited. *)
Definition all_fail (c : LLMClient) : Reply :=
  if Nat.eqb (obj_id c) 0 then Failed bad_request else Failed rate_limited.

Definition hello : list Message := [ {| role := "user"; content := "Hi" |} ].

(** [FallbackChain(providers).complete(hello)] in the counting world. *)
Definition run_chain (behaviour : LLMClient -> Reply) (providers : list LLMClient)
  : Run nat :=
  complete (counting_env behaviour) providers None hello 1000 (7 # 10) 0%nat.

End Scenario.

(** ** Vocabulary for statements about the registry *)

Module Registry.

(** [x in l] on strings. *)
Definition inb (x : string) (l : list string) : bool := existsb (String.eqb x) l.

(** The identifiers for which [create_provider] has a client class; the
    Anthropic branch is still a TODO in the source. *)
Definition implemented : list string := ["groq"; "gemini"; "openai"].

(** Stated from the specification: an identifier gets a client when a client
    class exists for it and its credential is configured
    ([Settings.available_providers]). *)
Definition has_client (s : Config.Settings) (n : string) : bool :=
  inb n implemented && inb n (Config.available_providers s).

(** Stated from the specification: the configured order, with the
    identifiers that get no client left out. *)
Definition spec_chain (s : Config.Settings) : list string :=
  List.filter (has_client s) (Config.provider_order s).

(** Settings with keys for Groq and OpenAI and the default order. *)
Definition two_keys : Config.Settings :=
  {| Config.groq_api_key := Some "gsk-1";
     Config.google_api_key := None;
     Config.openai_api_key := Some "sk-2";
     Config.anthropic_api_key := None;
     Config.llm_provider_order := "groq,gemini,openai,anthropic";
     Config.groq_model := "llama-3.3-70b-versatile";
     Config.gemini_model := "gemini-1.5-flash";
     Config.openai_model := "gpt-4o-mini";
     Config.anthropic_model := "claude-3-5-sonnet-20241022" |}.

(** Settings whose only key is the Anthropic one. *)
Definition anthropic_only : Config.Settings :=
  {| Config.groq_api_key := None;
     Config.google_api_key := None;
     Config.openai_api_key := None;
     Config.anthropic_api_key := Some "sk-ant-1";
     Config.llm_provider_order := "groq,gemini,openai,anthropic";
     Config.groq_model := "llama-3.3-70b-versatile";
     Config.gemini_model := "gemini-1.5-flash";
     Config.openai_model := "gpt-4o-mini";
     Config.anthropic_model := "claude-3-5-sonnet-20241022" |}.

End Registry.

(** ** Vocabulary for statements about the in-memory store *)

Module StoreSpec.
Import LLM Products Storage Storage.InMemory.

(** The states a store built with capacity [N] can be in: the calls of
    [save] that return and the calls of [delete] move it on ([get] and a
    [save] that raises leave it as it is), and so does any change made to a
    stored session object through a reference to it that [get] handed out
    or that the caller of [save] kept. *)
Inductive reachable (N : Z) : InMemorySessionStorage -> Prop :=
| reach_init : reachable N (init N)
| reach_save st session st' :
    reachable N st -> save st session = Ok st' -> reachable N st'
| reach_delete st session_id product :
    reachable N st -> reachable N (snd (delete st session_id product))
| reach_mutate st key session :
    reachable N st -> PyDict.mem (_sessions st) key = true ->
    reachable N {| _sessions := PyDict.set (_sessions st) key session;
                   _max_sessions := _max_sessions st |}.

(** Number of stored sessions. *)
Definition size (st : InMemorySessionStorage) : nat := length (_sessions st).

(** Sessions used in the examples. *)
Definition session_at (sid : string) (p : ProductType) (updated : datetime) : Session :=
  {| session_id := sid; product := p;
     messages := [ {| role := "user"; content := "Hi" |} ];
     created_at := 1; updated_at := updated; metadata := [] |}.

(** A store of capacity 2 holding two sessions, the first saved being the
    more recently updated one. *)
Definition full_store : InMemorySessionStorage :=
  {| _sessions := [ ("chatbot:s1", session_at "s1" CHATBOT 20);
                    ("chatbot:s2", session_at "s2" CHATBOT 10) ];
     _max_sessions := 2 |}.

End StoreSpec.

(** ** Vocabulary for statements about the Redis store *)

Module RedisSpec.
Import LLM Products Storage.

(** Induction on Python values, through the lists and dictionaries they
    hold. *)
Section PyvalInduction.
Variable P : pyval -> Prop.
Hypothesis HNone : P PNone.
Hypothesis HBool : forall b, P (PBool b).
Hypothesis HInt : forall n, P (PInt n).
Hypothesis HStr : forall s, P (PStr s).
Hypothesis HList : forall l, Forall P l -> P (PList l).
Hypothesis HTuple : forall l, Forall P l -> P (PTuple l).
Hypothesis HDict : forall d, Forall (fun kv => P (snd kv)) d -> P (PDict d).
Hypothesis HObject : forall r, P (PObject r).

Fixpoint pyval_induction (v : pyval) : P v :=
  match v with
  | PNone => HNone
  | PBool b => HBool b
  | PInt n => HInt n
  | PStr s => HStr s
  | PList l =>
      HList l ((fix go (l : list pyval) : Forall P l :=
                  match l with
                  | [] => @List.Forall_nil _ P
                  | x :: r => @List.Forall_cons _ P x r (pyval_induction x) (go r)
                  end) l)
  | PTuple l =>
      HTuple l ((fix go (l : list pyval) : Forall P l :=
                   match l with
                   | [] => @List.Forall_nil _ P
                   | x :: r => @List.Forall_cons _ P x r (pyval_induction x) (go r)
                   end) l)
  | PDict d =>
      HDict d ((fix go (d : list (pykey * pyval)) : Forall (fun kv => P (snd kv)) d :=
                  match d with
                  | [] => @List.Forall_nil _ _
                  | kv :: r => @List.Forall_cons _ _ kv r (pyval_induction (snd kv)) (go r)
                  end) d)
  | PObject r => HObject r
  end.
End PyvalInduction.

Definition is_str_key (k : pykey) : Prop :=
  match k with KStr _ => True | KInt _ => False end.

(** The values JSON represents as they are: [None], booleans, integers,
    strings, lists of such values, and dictionaries of such values whose
    keys are strings (no key twice). Tuples, other key types and objects
    without an encoding are left out. *)
Fixpoint json_native (v : pyval) : Prop :=
  match v with
  | PNone | PBool _ | PInt _ | PStr _ => True
  | PList l =>
      (fix all (l : list pyval) : Prop :=
         match l with
         | [] => True
         | x :: r => json_native x /\ all r
         end) l
  | PTuple _ => False
  | PDict d =>
      PyDict.wf d /\
      (fix all (d : list (pykey * pyval)) : Prop :=
         match d with
         | [] => True
         | kv :: r => is_str_key (fst kv) /\ json_native (snd kv) /\ all r
         end) d
  | PObject _ => False
  end.

(** The contract of the two date functions: parsing what [isoformat] wrote
    gives the instant back. *)
Definition codec_ok (codec : DateCodec) : Prop :=
  forall d : datetime, fromisoformat codec (isoformat codec d) = Some d.

(** A live record is held under the key of [(session_id, product)] at
    instant [now]. *)
Definition present (st : Redis.RedisSessionStorage) (now : Z) (session_id : string)
    (product : ProductType) : Prop :=
  is_Some (Redis.client_get (Redis.keyspace st) now (Redis._make_key session_id product)).

(** A codec to run the examples with: it writes the instant as a decimal
    number. *)
Definition decimal_codec : DateCodec :=
  {| isoformat := fun d => DecimalString.NilEmpty.string_of_int (Z.to_int d);
     fromisoformat := fun s => option_map Z.of_int (DecimalString.NilEmpty.int_of_string s) |}.

(** A session whose metadata is a plain string-keyed dictionary. *)
Definition tagged_session : Session :=
  {| session_id := "s1"; product := CHATBOT;
     messages := [ {| role := "system"; content := "You are helpful." |};
                   {| role := "user"; content := "Hi" |} ];
     created_at := 1700000000; updated_at := 1700000060;
     metadata := [ (KStr "lang", PStr "en"); (KStr "tags", PList [PStr "a"; PInt 2]) ] |}.

(** The same session, its metadata keyed by an integer. *)
Definition int_keyed_session : Session :=
  {| session_id := "s1"; product := CHATBOT;
     messages := [ {| role := "user"; content := "Hi" |} ];
     created_at := 1700000000; updated_at := 1700000060;
     metadata := [ (KInt 1, PStr "x") ] |}.

End RedisSpec.

(** ** Probes used to exercise the health check *)

Module HealthScenario.
Import LLM Fallback Scenario.


End HealthScenario.

(** ** An observer that keeps a log *)

Module Observer.
Import LLM Fallback.

(** The world of [env] with, beside it, the list of the attempts the
    observer has been handed so far. Backends and clocks do not see the
    list. *)
Definition logged_env {World : Type} (env : Env World)
  : Env (World * list FallbackAttempt) :=
  {| provider_complete := fun c m t q wl =>
       let (r, w') := provider_complete env c m t q (fst wl) in (r, (w', snd wl));
     perf_counter := fun wl => perf_counter env (fst wl);
     utcnow := fun wl => utcnow env (fst wl) |}.

(** An [on_fallback] callback that appends the attempt it is given. *)
Definition log_attempt {World : Type} (a : FallbackAttempt)
    (wl : World * list FallbackAttempt) : World * list FallbackAttempt :=
  (fst wl, snd wl ++ [a]).

(** The attempts of a run, whichever way it ended ([Propagated] carries
    none). *)
Definition attempts_of (o : Outcome) : list FallbackAttempt :=
  match o with
  | Returned r => attempts r
  | Raised _ e => err_attempts e
  | Propagated _ => []
  end.

End Observer.

(** ** Further behaviours for the examples *)

Module ScenarioMore.
Import LLM Fallback Scenario.

(** [client_a] rejects every request, every other client breaks with an
    exception that is no [ProviderError]. *)
Definition others_crash (c : LLMClient) : Reply :=
  if Nat.eqb (obj_id c) 0 then Failed bad_request else Crashed "KeyError".

End ScenarioMore.

(** ** Python list helpers *)

Module PyList.

(** [l[:n]]: the first [n] items, or for a negative [n] all but the last
    [-n] items. *)
Definition slice_to {A : Type} (l : list A) (n : Z) : list A :=
  if 0 <=? n then take (Z.to_nat n) l
  else take (Z.to_nat (Z.of_nat (length l) + n)) l.

(** One step of a stable descending sort: [x], which stood before every
    item of [l], goes in front of the first item whose key is not greater
    than its own. *)
Fixpoint insert_desc {A : Type} (key : A -> Z) (x : A) (l : list A) : list A :=
  match l with
  | [] => [x]
  | y :: r => if key y <=? key x then x :: y :: r else y :: insert_desc key x r
  end.

(** [l.sort(key=key, reverse=True)]: the sort is stable, so its result is
    the one of this insertion sort. *)
Fixpoint sort_desc {A : Type} (key : A -> Z) (l : list A) : list A :=
  match l with
  | [] => []
  | x :: r => insert_desc key x (sort_desc key r)
  end.

End PyList.

(** ** storage/session.py: listing and the factory *)

Module Listing.
Import LLM Products Storage.

#[global] Instance ProductType_eq_dec : EqDecision ProductType.
Proof. solve_decision. Defined.

(** [InMemorySessionStorage.list_sessions]. A [ProductType] is never falsy,
    so [if product:] tests for [None]. *)
Definition list_sessions (st : InMemory.InMemorySessionStorage)
    (product : option ProductType) (limit : Z) : list Session :=
  let sessions := List.map snd (InMemory._sessions st) in
  let sessions :=
    match product with
    | Some p => List.filter (fun s => bool_decide (Storage.product s = p)) sessions
    | None => sessions
    end in
  PyList.slice_to (PyList.sort_desc updated_at sessions) limit.

(** The sessions [list_sessions] chooses from. *)
Definition candidates (st : InMemory.InMemorySessionStorage)
    (product : option ProductType) : list Session :=
  match product with
  | Some p => List.filter (fun s => bool_decide (Storage.product s = p))
                          (List.map snd (InMemory._sessions st))
  | None => List.map snd (InMemory._sessions st)
  end.

End Listing.

(** ** core/providers: the three clients *)

Module Providers.
Import LLM.

(** OpenAI pricing per 1M tokens. *)
Definition OPENAI_PRICING : gmap string Groq.Pricing :=
  list_to_map
    [ ("gpt-4o", {| Groq.input := 250 # 100; Groq.output := 1000 # 100 |});
      ("gpt-4o-mini", {| Groq.input := 15 # 100; Groq.output := 60 # 100 |});
      ("gpt-4-turbo", {| Groq.input := 1000 # 100; Groq.output := 3000 # 100 |});
      ("gpt-3.5-turbo", {| Groq.input := 50 # 100; Groq.output := 150 # 100 |});
      ("o1", {| Groq.input := 1500 # 100; Groq.output := 6000 # 100 |});
      ("o1-mini", {| Groq.input := 300 # 100; Groq.output := 1200 # 100 |}) ].

Definition OPENAI_DEFAULT_PRICING : Groq.Pricing :=
  {| Groq.input := 500 # 100; Groq.output := 1500 # 100 |}.

(** Gemini pricing per 1M tokens. *)
Definition GEMINI_PRICING : gmap string Groq.Pricing :=
  list_to_map
    [ ("gemini-1.5-flash", {| Groq.input := 75 # 1000; Groq.output := 30 # 100 |});
      ("gemini-1.5-flash-8b", {| Groq.input := 375 # 10000; Groq.output := 15 # 100 |});
      ("gemini-1.5-pro", {| Groq.input := 125 # 100; Groq.output := 500 # 100 |});
      ("gemini-2.0-flash-exp", {| Groq.input := 0; Groq.output := 0 |}) ].

Definition GEMINI_DEFAULT_PRICING : Groq.Pricing :=
  {| Groq.input := 50 # 100; Groq.output := 150 # 100 |}.

(** The body shared by the three [estimate_cost] methods. *)
Definition cost_with (table : gmap string Groq.Pricing) (fallback : Groq.Pricing)
    (model : string) (input_tokens output_tokens : Z) : Q :=
  let pricing := default fallback (table !! model) in
  ((inject_Z input_tokens / 1000000) * Groq.input pricing
   + (inject_Z output_tokens / 1000000) * Groq.output pricing)%Q.

(** [client.estimate_cost], by the class of the client. The registry
    builds no client reporting [ANTHROPIC]. *)
Definition estimate_cost (c : LLMClient) (input_tokens output_tokens : Z) : Q :=
  match name c with
  | GROQ => Groq.estimate_cost (model c) input_tokens output_tokens
  | OPENAI => cost_with OPENAI_PRICING OPENAI_DEFAULT_PRICING (model c) input_tokens output_tokens
  | GEMINI => cost_with GEMINI_PRICING GEMINI_DEFAULT_PRICING (model c) input_tokens output_tokens
  | ANTHROPIC => 0
  end.

(** What the chat call of the Groq and OpenAI SDKs hands back:
    [choices[0].message.content] and [usage] (prompt and completion
    tokens). *)
Record ChatResponse := {
  chat_content : option string;
  usage : option (Z * Z)
}.

(** How the [try] body of [complete] ends for Groq and OpenAI. The texts
    are [str(e)]. [RateLimitError] and [APIStatusError] carry a status
    code; [APIConnectionError] and a bare [APIError] have no [status_code]
    attribute. [OtherException] is any other exception of class
    [Exception] raised in the body, the [IndexError] of [choices[0]] on a
    response without choices included. *)
Inductive ChatOutcome :=
| Responded (r : ChatResponse)
| RateLimitError (text : string)
| APIConnectionError (text : string)
| APIStatusError (text : string) (status : Z)
| APIError (text : string)
| OtherException (text : string).

(** The [CompletionResult(...)] built on success. *)
Definition chat_result (c : LLMClient) (r : ChatResponse) (elapsed : Q) (now : datetime)
  : CompletionResult :=
  let input_tokens := match usage r with Some (i, _) => i | None => 0 end in
  let output_tokens := match usage r with Some (_, o) => o | None => 0 end in
  {| cr_content := default "" (chat_content r);
     cr_provider := name c; cr_model := model c;
     input_tokens := input_tokens; output_tokens := output_tokens;
     cr_latency_ms := elapsed;
     cost_usd := estimate_cost c input_tokens output_tokens;
     cr_timestamp := now |}.

(** The [except APIError] clause: [status_code=getattr(e, "status_code",
    None)], [retryable=getattr(e, "status_code", 500) >= 500]. *)
Definition api_error (c : LLMClient) (text : string) (status : option Z) : ProviderError :=
  {| pe_provider := name c; message := text; status_code := status;
     retryable := 500 <=? default 500 status |}.

Definition rate_limited (c : LLMClient) (text : string) : ProviderError :=
  {| pe_provider := name c; message := "Rate limit exceeded: " +:+ text;
     status_code := Some 429; retryable := true |}.

Definition unexpected (c : LLMClient) (text : string) : ProviderError :=
  {| pe_provider := name c; message := "Unexpected error: " +:+ text;
     status_code := None; retryable := false |}.

(** [GroqClient.complete] from the end of the SDK call on: the clauses
    [RateLimitError], [APIError] (which takes the connection error, a
    subclass, too), [Exception]. *)
Definition groq_reply (c : LLMClient) (o : ChatOutcome) (elapsed : Q) (now : datetime) : Reply :=
  match o with
  | Responded r => Completed (chat_result c r elapsed now)
  | RateLimitError t => Failed (rate_limited c t)
  | APIConnectionError t => Failed (api_error c t None)
  | APIStatusError t status => Failed (api_error c t (Some status))
  | APIError t => Failed (api_error c t None)
  | OtherException t => Failed (unexpected c t)
  end.

(** [OpenAIClient.complete] from the end of the SDK call on: the clauses
    [RateLimitError], [APIConnectionError], [APIError], [Exception]. *)
Definition openai_reply (c : LLMClient) (o : ChatOutcome) (elapsed : Q) (now : datetime) : Reply :=
  match o with
  | Responded r => Completed (chat_result c r elapsed now)
  | RateLimitError t => Failed (rate_limited c t)
  | APIConnectionError t =>
      Failed {| pe_provider := name c; message := "Connection error: " +:+ t;
                status_code := None; retryable := true |}
  | APIStatusError t status => Failed (api_error c t (Some status))
  | APIError t => Failed (api_error c t None)
  | OtherException t => Failed (unexpected c t)
  end.

(** *** Gemini *)

(** An entry of the Gemini history: [{"role": ..., "parts": [...]}]. *)
Record Turn := { turn_role : string; parts : list string }.

(** The loop of [GeminiClient._convert_messages]. *)
Fixpoint _convert_messages_loop (messages : list Message)
    (system_instruction : option string) (history : list Turn)
  : option string * list Turn :=
  match messages with
  | [] => (system_instruction, history)
  | msg :: rest =>
      if String.eqb (role msg) "system" then
        _convert_messages_loop rest (Some (content msg)) history
      else if String.eqb (role msg) "user" then
        _convert_messages_loop rest system_instruction
          (history ++ [ {| turn_role := "user"; parts := [content msg] |} ])
      else if String.eqb (role msg) "assistant" then
        _convert_messages_loop rest system_instruction
          (history ++ [ {| turn_role := "model"; parts := [content msg] |} ])
      else _convert_messages_loop rest system_instruction history
  end.

Definition _convert_messages (messages : list Message) : option string * list Turn :=
  _convert_messages_loop messages None [].

(** What [chat.send_message_async] hands back: [response.text] and the
    two counts of [usage_metadata] when the response has that attribute. *)
Record GeminiResponse := {
  text : string;
  usage_metadata : option (Z * Z)
}.

(** How the rest of the [try] body ends. [GoogleAPIError] is any
    [GoogleAPIError] other than the two named before it; [GeminiOther] is
    any other exception of class [Exception] raised in the body. *)
Inductive GeminiOutcome :=
| GeminiResponded (r : GeminiResponse)
| ResourceExhausted (text : string)
| InvalidArgument (text : string)
| GoogleAPIError (text : string)
| GeminiOther (text : string).

Definition gemini_result (c : LLMClient) (r : GeminiResponse) (elapsed : Q) (now : datetime)
  : CompletionResult :=
  let input_tokens := match usage_metadata r with Some (i, _) => i | None => 0 end in
  let output_tokens := match usage_metadata r with Some (_, o) => o | None => 0 end in
  {| cr_content := text r;
     cr_provider := name c; cr_model := model c;
     input_tokens := input_tokens; output_tokens := output_tokens;
     cr_latency_ms := elapsed;
     cost_usd := estimate_cost c input_tokens output_tokens;
     cr_timestamp := now |}.

Definition gemini_reply (c : LLMClient) (o : GeminiOutcome) (elapsed : Q) (now : datetime)
  : Reply :=
  match o with
  | GeminiResponded r => Completed (gemini_result c r elapsed now)
  | ResourceExhausted t => Failed (rate_limited c t)
  | InvalidArgument t =>
      Failed {| pe_provider := name c; message := "Invalid request: " +:+ t;
                status_code := Some 400; retryable := false |}
  | GoogleAPIError t =>
      Failed {| pe_provider := name c; message := t; status_code := None; retryable := true |}
  | GeminiOther t => Failed (unexpected c t)
  end.

(** The [ProviderError] raised inside the [try] body when the history is
    empty. *)
Definition no_user_message (c : LLMClient) : ProviderError :=
  {| pe_provider := name c; message := "No user message provided";
     status_code := None; retryable := false |}.

(** *** The clients against their SDKs *)

(** The SDK calls as the clients make them: they answer and move the
    world on. The chat calls get the key and the model of the client and
    the request; the Gemini call gets the system instruction (if any), the
    history before the last entry and the text of the last entry. *)
Record Sdk (World : Type) := {
  groq_create : string -> string -> list Message -> Z -> Q -> World -> ChatOutcome * World;
  openai_create : string -> string -> list Message -> Z -> Q -> World -> ChatOutcome * World;
  gemini_send :
    string -> string -> option string -> list Turn -> string -> Z -> Q -> World
    -> GeminiOutcome * World;
  sdk_perf_counter : World -> Q;
  sdk_utcnow : World -> datetime
}.
Arguments groq_create {World}.
Arguments openai_create {World}.
Arguments gemini_send {World}.
Arguments sdk_perf_counter {World}.
Arguments sdk_utcnow {World}.

Section Clients.
Context {World : Type} (sdk : Sdk World).

Definition ms_between (w w1 : World) : Q :=
  ((sdk_perf_counter sdk w1 - sdk_perf_counter sdk w) * 1000)%Q.

(** [GroqClient.complete]. *)
Definition groq_complete (c : LLMClient) (messages : list Message) (max_tokens : Z)
    (temperature : Q) (w : World) : Reply * World :=
  let (o, w1) := groq_create sdk (api_key c) (model c) messages max_tokens temperature w in
  (groq_reply c o (ms_between w w1) (sdk_utcnow sdk w1), w1).

(** [OpenAIClient.complete]. *)
Definition openai_complete (c : LLMClient) (messages : list Message) (max_tokens : Z)
    (temperature : Q) (w : World) : Reply * World :=
  let (o, w1) := openai_create sdk (api_key c) (model c) messages max_tokens temperature w in
  (openai_reply c o (ms_between w w1) (sdk_utcnow sdk w1), w1).

(** [GeminiClient.complete]. With an empty history the [ProviderError]
    raised in the [try] body is caught by the [except Exception] clause of
    the same [try] and raised anew as an unexpected error; the SDK is not
    called. *)
Definition gemini_complete (c : LLMClient) (messages : list Message) (max_tokens : Z)
    (temperature : Q) (w : World) : Reply * World :=
  let (system_instruction, history) := _convert_messages messages in
  match last history with
  | None => (Failed (unexpected c (str (no_user_message c))), w)
  | Some last_turn =>
      let instruction := if Py.truthy system_instruction then system_instruction else None in
      match parts last_turn with
      | [] => (Failed (unexpected c "list index out of range"), w)
      | last_message :: _ =>
          let (o, w1) :=
            gemini_send sdk (api_key c) (model c) instruction (removelast history)
              last_message max_tokens temperature w in
          (gemini_reply c o (ms_between w w1) (sdk_utcnow sdk w1), w1)
      end
  end.

(** The world of the chain when its clients are the three shipped classes:
    [provider.complete] dispatches on the class of the client. No class
    reports [ANTHROPIC]; such a client cannot be built. *)
Definition shipped_env : Env World :=
  {| provider_complete := fun c messages max_tokens temperature w =>
       match name c with
       | GROQ => groq_complete c messages max_tokens temperature w
       | OPENAI => openai_complete c messages max_tokens temperature w
       | GEMINI => gemini_complete c messages max_tokens temperature w
       | ANTHROPIC => (Crashed "no such client class", w)
       end;
     perf_counter := sdk_perf_counter sdk;
     utcnow := sdk_utcnow sdk |}.

End Clients.

End Providers.

(** ** Vocabulary and examples for the clients *)

Module ProviderSpec.
Import LLM Fallback Providers.



(** The request [LLMClient.health_check] sends. *)
Definition probe_messages : list Message := [ {| role := "user"; content := "Hi" |} ].

(** SDKs to run the examples with, in a world that counts the calls: Groq
    answers 503, OpenAI answers with a text and token counts, Gemini
    rejects the request. *)
Definition demo_sdk : Sdk nat :=
  {| groq_create := fun _ _ _ _ _ w => (APIStatusError "service unavailable" 503, S w);
     openai_create := fun _ _ _ _ _ w =>
       (Responded {| chat_content := Some "Hello"; usage := Some (12, 7) |}, S w);
     gemini_send := fun _ _ _ _ _ _ _ w => (InvalidArgument "bad request", S w);
     sdk_perf_counter := fun w => inject_Z (Z.of_nat w);
     sdk_utcnow := fun w => Z.of_nat w |}.

Definition groq_client : LLMClient :=
  {| obj_id := 0; name := GROQ; api_key := "gsk-1"; model := "llama-3.3-70b-versatile" |}.
Definition openai_client : LLMClient :=
  {| obj_id := 1; name := OPENAI; api_key := "sk-2"; model := "gpt-4o-mini" |}.
Definition gemini_client : LLMClient :=
  {| obj_id := 2; name := GEMINI; api_key := "g-3"; model := "gemini-1.5-flash" |}.

(** The probes of the two demo clients, each answered in the initial
    world within a second. *)
Definition demo_probes : list (LLMClient * Probe) :=
  [ (groq_client,
     {| timing := Finishes 1;
        reply := fst (provider_complete (shipped_env demo_sdk) groq_client probe_messages 5
                        (7 # 10) 0%nat) |});
    (openai_client,
     {| timing := Finishes 1;
        reply := fst (provider_complete (shipped_env demo_sdk) openai_client probe_messages 5
                        (7 # 10) 0%nat) |}) ].

End ProviderSpec.

(** ** api/routes/completion.py *)

Module CompletionRoute.
Import LLM Fallback Products Storage Storage.InMemory.

(** The fields of [ProductConfig] the route reads. *)
Record ProductConfig := {
  system_prompt : string;
  pc_max_tokens : Z;
  pc_temperature : Q
}.

(** The fields of [CompletionRequest] the route reads. *)
Record CompletionRequest := {
  req_product : ProductType;
  req_session_id : string;
  req_message : string;
  req_max_tokens : option Z;
  req_temperature : option Q
}.

Record CompletionResponse := {
  response : string;
  resp_session_id : string;
  resp_product : string;
  resp_provider : string;
  resp_model : string;
  resp_input_tokens : Z;
  resp_output_tokens : Z;
  resp_latency_ms : Q;
  resp_cost_usd : Q;
  resp_fallback_used : bool
}.

(** How a call of the route ends: with a response, with the
    [HTTPException] it raises (the [error] and [detail] entries of its
    detail; the random request id is left out), or with an exception it
    does not catch. *)
Inductive RouteOutcome :=
| Sent (r : CompletionResponse)
| HTTPException (status : Z) (error detail : string)
| Escaped (exn : string).

Section Route.
Context {World : Type} (env : Env World).
(** The texts of the system prompts in [PRODUCTS]. *)
Variable prompts : ProductType -> string.
(** [fallback_chain.providers] and [fallback_chain.on_fallback]. *)
Variable providers : list LLMClient.
Variable on_fallback : option (FallbackAttempt -> World -> World).

(** [get_product_config]: [PRODUCTS[product]]; every member of
    [ProductType] is a key of the table. *)
Definition get_product_config (product : ProductType) : ProductConfig :=
  match product with
  | CHATBOT =>
      {| system_prompt := prompts CHATBOT; pc_max_tokens := 1000; pc_temperature := 7 # 10 |}
  | WRITING_HELPER =>
      {| system_prompt := prompts WRITING_HELPER; pc_max_tokens := 1500;
         pc_temperature := 5 # 10 |}
  | CODE_REVIEWER =>
      {| system_prompt := prompts CODE_REVIEWER; pc_max_tokens := 2000;
         pc_temperature := 3 # 10 |}
  | SUPPORT_BOT =>
      {| system_prompt := prompts SUPPORT_BOT; pc_max_tokens := 800; pc_temperature := 6 # 10 |}
  | CONTENT_SUMMARIZER =>
      {| system_prompt := prompts CONTENT_SUMMARIZER; pc_max_tokens := 1000;
         pc_temperature := 4 # 10 |}
  end.

(** [request.max_tokens or product_config.max_tokens]: [None] and [0] both
    give way to the default. *)
Definition max_tokens_for (request : CompletionRequest) (product_config : ProductConfig) : Z :=
  match req_max_tokens request with
  | Some n => if n =? 0 then pc_max_tokens product_config else n
  | None => pc_max_tokens product_config
  end.

(** [request.temperature if request.temperature is not None else
    product_config.temperature]. *)
Definition temperature_for (request : CompletionRequest) (product_config : ProductConfig) : Q :=
  match req_temperature request with
  | Some t => t
  | None => product_config.(pc_temperature)
  end.

(** The session object the route works on is the stored object itself when
    [get] found one: what [add_message] does to it shows in the store, under
    the key it was found at. A session the route has just created is not in
    the store until [save]. *)
Definition through_alias (stored : option Session) (key : string) (session : Session)
    (st : InMemorySessionStorage) : InMemorySessionStorage :=
  match stored with
  | Some _ => {| _sessions := PyDict.set (_sessions st) key session;
                 _max_sessions := _max_sessions st |}
  | None => st
  end.

(** [create_completion] over the in-memory store: the outcome, the store
    and the world it leaves. The clock of the host is read off the world.
    The request runs alone: nothing else touches the store while the chain
    is awaited. *)
Definition create_completion (request : CompletionRequest) (st : InMemorySessionStorage)
    (w : World) : RouteOutcome * InMemorySessionStorage * World :=
  let product_config := get_product_config (req_product request) in
  let key := _make_key (req_session_id request) (req_product request) in
  let stored := get st (req_session_id request) (req_product request) in
  let session :=
    match stored with
    | Some s => s
    | None =>
        {| session_id := req_session_id request; product := req_product request;
           messages := [ {| role := "system"; content := system_prompt product_config |} ];
           created_at := utcnow env w; updated_at := utcnow env w; metadata := [] |}
    end in
  let session :=
    add_message (utcnow env w) session {| role := "user"; content := req_message request |} in
  let st := through_alias stored key session st in
  let max_tokens := max_tokens_for request product_config in
  let temperature := temperature_for request product_config in
  let run := complete env providers on_fallback (messages session) max_tokens temperature w in
  match outcome run with
  | Returned fallback_result =>
      let result := Fallback.result fallback_result in
      let session :=
        add_message (utcnow env (final run)) session
          {| role := "assistant"; content := cr_content result |} in
      let st := through_alias stored key session st in
      match save st session with
      | Raise exn => (Escaped exn, st, final run)
      | Ok st =>
          (Sent {| response := cr_content result;
                   resp_session_id := req_session_id request;
                   resp_product := Products.value (req_product request);
                   resp_provider := LLM.value (cr_provider result);
                   resp_model := cr_model result;
                   resp_input_tokens := input_tokens result;
                   resp_output_tokens := output_tokens result;
                   resp_latency_ms := cr_latency_ms result;
                   resp_cost_usd := cost_usd result;
                   resp_fallback_used := fallback_used fallback_result |},
           st, final run)
      end
  | Raised _ e =>
      (HTTPException 503 "All providers unavailable" (err_text e), st, final run)
  | Propagated exn => (Escaped exn, st, final run)
  end.

(** *** Vocabulary for statements about a request *)

(** The conversation so far: the messages of the stored session, or the
    system prompt of the product for a session that does not exist yet. *)
Definition history (request : CompletionRequest) (st : InMemorySessionStorage)
  : list Message :=
  match get st (req_session_id request) (req_product request) with
  | Some s => messages s
  | None => [ {| role := "system";
                 content := system_prompt (get_product_config (req_product request)) |} ]
  end.

Definition user_message (request : CompletionRequest) : Message :=
  {| role := "user"; content := req_message request |}.

(** The call of the chain the request leads to. *)
Definition chain_run (request : CompletionRequest) (st : InMemorySessionStorage) (w : World)
  : Run World :=
  complete env providers on_fallback (history request st ++ [user_message request])
    (max_tokens_for request (get_product_config (req_product request)))
    (temperature_for request (get_product_config (req_product request))) w.

(** The entry found under the key of the request carries the session id
    and the product of the request, as every entry written by [save]
    does. *)
Definition own_key (request : CompletionRequest) (st : InMemorySessionStorage) : Prop :=
  forall s, get st (req_session_id request) (req_product request) = Some s ->
            session_id s = req_session_id request /\ product s = req_product request.

End Route.

End CompletionRoute.

(** ** Examples for the route *)

Module RouteScenario.
Import LLM Fallback Products Storage Storage.InMemory CompletionRoute.

Definition demo_prompts (p : ProductType) : string := "You are " +:+ Products.value p.

(** A follow-up in the stored session [s1] and a first message in a
    session not stored yet. *)
Definition follow_up : CompletionRequest :=
  {| req_product := CHATBOT; req_session_id := "s1"; req_message := "And then?";
     req_max_tokens := None; req_temperature := Some 0%Q |}.

Definition first_message : CompletionRequest :=
  {| req_product := CODE_REVIEWER; req_session_id := "pr-456"; req_message := "def f(): pass";
     req_max_tokens := Some 0; req_temperature := None |}.

End RouteScenario.

(* ===================================================================== *)
(** * Part II: properties                                                  *)
(* ===================================================================== *)

(** ** Strings *)

Module PyFacts.
Import Py.









End PyFacts.

(** ** The fallback chain *)

Module FallbackFacts.
Import LLM Fallback.

Section Chain.
Context {World : Type} (env : Env World).
Variable providers : list LLMClient.
Variable on_fallback : option (FallbackAttempt -> World -> World).
Variables (messages : list Message) (max_tokens : Z) (temperature : Q).

Local Abbreviation loop := (complete_loop env providers on_fallback messages max_tokens temperature).
Local Abbreviation run := (complete env providers on_fallback messages max_tokens temperature).
Local Abbreviation failing := (fail_through env on_fallback messages max_tokens temperature).
Local Abbreviation call := (fun p w => provider_complete env p messages max_tokens temperature w).
Local Abbreviation tell := (notify on_fallback).
Local Abbreviation last_eq := (is_last_provider providers).

Lemma passes_on_guard p e :
  passes_on providers p e -> negb (retryable e) && last_eq p = false.
Proof.
  intros [Hr | Hl]; [rewrite Hr | rewrite Hl]; simpl; auto using andb_false_r.
Qed.

(** A prefix of failing clients, none of which hits the fail-fast test,
    is walked through: the loop resumes behind it with one failure
    record and one call per client. *)
Lemma loop_skip_failures pre :
  forall rest atts0 calls0 w errs atts w1,
    failing pre w = Some (errs, atts, w1) ->
    Forall2 (passes_on providers) pre errs ->
    loop (pre ++ rest) atts0 calls0 w = loop rest (atts0 ++ atts) (calls0 ++ pre) w1.
Proof.
  induction pre as [|p pre IH]; intros rest atts0 calls0 w errs atts w1 Hf Hp.
  - simpl in Hf. injection Hf as <- <- <-. now rewrite !app_nil_r.
  - simpl in Hf. simpl.
    destruct (provider_complete env p messages max_tokens temperature w) as [reply w'].
    destruct reply as [res | e | exn]; try discriminate.
    destruct (failing pre _) as [[[es ats] wf]|] eqn:Hrest; try discriminate.
    injection Hf as <- <- <-.
    inversion Hp as [|? ? ? ? Hhd Htl]; subst.
    rewrite (passes_on_guard _ _ Hhd).
    rewrite (IH rest _ _ _ _ _ _ Hrest Htl).
    now rewrite <- !app_assoc.
Qed.





Lemma str_truthy (e : ProviderError) : Py.truthy (Some (str e)) = true.
Proof. unfold str. destruct (pe_provider e); reflexivity. Qed.



Lemma last_provider_tail pre p post :
  providers = pre ++ p :: post ->
  NoDup (List.map obj_id providers) ->
  (last_eq p = true <-> post = []).
Proof.
  intros -> Hnd. unfold is_last_provider. rewrite last_app_cons.
  split.
  - intros Hl. destruct post as [|q post]; [reflexivity|]. exfalso.
    destruct (last (p :: q :: post)) as [l|] eqn:El; [|discriminate].
    rewrite last_cons_cons in El. cbn in Hl.
    apply Nat.eqb_eq in Hl.
    assert (Hin : In l (q :: post)).
    { apply list_elem_of_In. eapply last_Some_elem_of; eauto. }
    rewrite List.map_app in Hnd. apply NoDup_app in Hnd as (_ & _ & Hnd).
    cbn [List.map] in Hnd. apply NoDup_cons in Hnd as [Hni _].
    apply Hni. rewrite Hl. apply list_elem_of_In.
    change (obj_id q :: List.map obj_id post) with (List.map obj_id (q :: post)).
    now apply in_map.
  - intros ->. cbn. apply Nat.eqb_refl.
Qed.

(** In a list of pairwise distinct client objects no client before the
    final position is the last client, so no failure before the final
    position meets the fail-fast test. *)
Lemma distinct_passes_on pre p post (errs : list ProviderError) :
  providers = pre ++ p :: post ->
  NoDup (List.map obj_id providers) ->
  length errs = length pre ->
  Forall2 (passes_on providers) pre errs.
Proof.
  intros Hsplit Hnd Hlen.
  assert (Hall : forall q, In q pre -> last_eq q = false).
  { intros q Hin. apply in_split in Hin as (pre1 & pre2 & ->).
    rewrite <- app_assoc in Hsplit. cbn [app] in Hsplit.
    destruct (last_eq q) eqn:Hl; [|reflexivity].
    apply (last_provider_tail _ _ _ Hsplit Hnd) in Hl.
    destruct pre2; discriminate. }
  clear Hsplit Hnd. revert errs Hlen.
  induction pre as [|q pre IH]; intros [|e errs] Hlen; try discriminate; constructor.
  - right. apply Hall. now left.
  - apply IH; [intros q' Hq'; apply Hall; now right | now injection Hlen].
Qed.

(** The run reaches the client standing behind a failing prefix. *)
Lemma run_reaches pre rest w errs atts w_i :
  providers = pre ++ rest ->
  failing pre w = Some (errs, atts, w_i) ->
  Forall2 (passes_on providers) pre errs ->
  run w = loop rest atts pre w_i.
Proof.
  intros Hsplit Hf Hp.
  transitivity (loop (pre ++ rest) [] [] w).
  - unfold complete. now rewrite <- Hsplit.
  - now rewrite (loop_skip_failures pre rest [] [] w errs atts w_i Hf Hp).
Qed.




(** C10: with an empty provider list, [complete] calls no backend, leaves
    the world untouched and raises [AllProvidersFailedError] (from behind
    the loop) with an empty attempts list; the text of the error names no
    backend. *)
Theorem empty_chain_raises (w : World) :
  complete env [] on_fallback messages max_tokens temperature w
  = {| outcome := Raised AfterLoop (AllProvidersFailedError_init []);
       invoked := []; final := w |}
  /\ err_attempts (AllProvidersFailedError_init []) = []
  /\ err_text (AllProvidersFailedError_init []) = "All providers failed: ".
Proof. repeat split. Qed.

End Chain.

Import Scenario.






End FallbackFacts.

(** ** The cost table *)

Module GroqFacts.
Import Groq.




End GroqFacts.

(** ** The registry *)

Module RegistryFacts.
Import LLM Fallback Registry.

Lemma lower_ascii_idem (c : ascii) : Py.lower_ascii (Py.lower_ascii c) = Py.lower_ascii c.
Proof. destruct c as [[] [] [] [] [] [] [] []]; reflexivity. Qed.

Lemma lower_idem (s : string) : Py.lower (Py.lower s) = Py.lower s.
Proof.
  induction s as [|c s IH]; [reflexivity|].
  cbn [Py.lower]. now rewrite lower_ascii_idem, IH.
Qed.

(** Every identifier of [provider_order] is already in lower case. *)
Lemma provider_order_lower (s : Config.Settings) :
  List.map Py.lower (Config.provider_order s) = Config.provider_order s.
Proof.
  unfold Config.provider_order. rewrite List.map_map.
  apply List.map_ext. intros p. apply lower_idem.
Qed.

(** [create_provider] answers with a client exactly for the identifiers
    that [has_client] accepts, and the client carries the provider, the key
    and the model configured for that identifier. *)
Lemma create_provider_spec (fresh : nat) (n : string) (s : Config.Settings) :
  match create_provider fresh n s with
  | Some c =>
      has_client s (Py.lower n) = true
      /\ value (name c) = Py.lower n
      /\ obj_id c = fresh
      /\ ((name c = GROQ /\ Config.groq_api_key s = Some (api_key c)
           /\ model c = Config.groq_model s)
          \/ (name c = GEMINI /\ Config.google_api_key s = Some (api_key c)
              /\ model c = Config.gemini_model s)
          \/ (name c = OPENAI /\ Config.openai_api_key s = Some (api_key c)
              /\ model c = Config.openai_model s))
  | None => has_client s (Py.lower n) = false
  end.
Proof.
  unfold create_provider, has_client, Config.available_providers, implemented, inb.
  destruct (String.eqb_spec (Py.lower n) "groq") as [-> | Hg].
  { destruct (Config.groq_api_key s) as [k|] eqn:Ek; cbn [Py.truthy];
      [destruct (String.eqb k "") eqn:Ee|];
      destruct (Py.truthy (Config.google_api_key s)), (Py.truthy (Config.openai_api_key s)),
        (Py.truthy (Config.anthropic_api_key s)); cbn; auto 10. }
  destruct (String.eqb_spec (Py.lower n) "gemini") as [-> | Hm].
  { destruct (Config.google_api_key s) as [k|] eqn:Ek; cbn [Py.truthy];
      [destruct (String.eqb k "") eqn:Ee|];
      destruct (Py.truthy (Config.groq_api_key s)), (Py.truthy (Config.openai_api_key s)),
        (Py.truthy (Config.anthropic_api_key s)); cbn; auto 10. }
  destruct (String.eqb_spec (Py.lower n) "openai") as [-> | Ho].
  { destruct (Config.openai_api_key s) as [k|] eqn:Ek; cbn [Py.truthy];
      [destruct (String.eqb k "") eqn:Ee|];
      destruct (Py.truthy (Config.groq_api_key s)), (Py.truthy (Config.google_api_key s)),
        (Py.truthy (Config.anthropic_api_key s)); cbn; auto 10. }
  cbn [andb existsb orb]. 
  apply String.eqb_neq in Hg, Hm, Ho. rewrite Hg, Hm, Ho. reflexivity.
Qed.

(** What the loop adds to the list built so far: the accepted identifiers in
    order, each client with the next unused identity. *)
Lemma chain_loop_spec (s : Config.Settings) (names : list string) :
  forall fresh acc,
    let chain := create_provider_chain_loop names s fresh acc in
    exists added,
      chain = acc ++ added
      /\ List.map (fun c => value (name c)) added
         = List.filter (has_client s) (List.map Py.lower names)
      /\ List.map obj_id added = seq fresh (length added)
      /\ Forall (fun c => exists n, In n names /\ create_provider (obj_id c) n s = Some c) added.
Proof.
  induction names as [|n names IH]; intros fresh acc; cbn zeta.
  - exists []. cbn. rewrite app_nil_r. repeat split; constructor.
  - cbn [create_provider_chain_loop List.map List.filter].
    pose proof (create_provider_spec fresh n s) as Hspec.
    destruct (create_provider fresh n s) as [c|] eqn:Ec.
    + destruct Hspec as (Hhas & Hname & Hid & _). rewrite Hhas.
      destruct (IH (S fresh) (acc ++ [c])) as (added & Hch & Hnames & Hids & Hall).
      exists (c :: added). cbn zeta in Hch. rewrite Hch, <- app_assoc.
      split; [reflexivity|]. split; [cbn; now rewrite Hname, Hnames|].
      split; [cbn; now rewrite Hid, Hids|].
      constructor.
      * exists n. split; [now left | now rewrite Hid].
      * eapply List.Forall_impl; [|exact Hall]. intros c' (n' & Hin & Hc'). exists n'. split; [now right | exact Hc'].
    + rewrite Hspec.
      destruct (IH fresh acc) as (added & Hch & Hnames & Hids & Hall).
      exists added. cbn zeta in Hch. repeat split; auto.
      eapply List.Forall_impl; [|exact Hall]. intros c' (n' & Hin & Hc'). exists n'. split; [now right | exact Hc'].
Qed.

(** C8 (amended): the chain built from the settings holds, in the
    configured order, one client for every identifier of the order that is
    one of [groq], [gemini], [openai] and whose credential is configured;
    every other identifier ([anthropic] and unknown names included, and the
    three above when their key is missing or empty) is passed over and
    nothing is raised. Each client is a new object and is the one
    [create_provider] builds for an identifier of the order. *)
Theorem chain_follows_order (fresh : nat) (s : Config.Settings) :
  let chain := create_provider_chain fresh s in
  List.map (fun c => value (name c)) chain = spec_chain s
  /\ (forall n, In n (Config.provider_order s) ->
        (is_Some (create_provider fresh n s)
         <-> In n implemented /\ In n (Config.available_providers s)))
  /\ Forall (fun c => exists n, In n (Config.provider_order s)
                               /\ create_provider (obj_id c) n s = Some c) chain
  /\ NoDup (List.map obj_id chain).
Proof.
  cbn zeta. unfold create_provider_chain, spec_chain.
  destruct (chain_loop_spec s (Config.provider_order s) fresh [])
    as (added & Hch & Hnames & Hids & Hall).
  cbn zeta in Hch. cbn [app] in Hch. rewrite Hch.
  rewrite provider_order_lower in Hnames.
  split; [exact Hnames|]. split; [|split; [exact Hall|]].
  - intros n Hin.
    assert (Hlow : Py.lower n = n).
    { rewrite <- provider_order_lower in Hin. apply in_map_iff in Hin as (m & <- & _).
      apply lower_idem. }
    pose proof (create_provider_spec fresh n s) as Hspec. rewrite Hlow in Hspec.
    assert (Hhas : has_client s n = true
                   <-> In n implemented /\ In n (Config.available_providers s)).
    { unfold has_client, inb. rewrite andb_true_iff, !existsb_exists.
      split.
      - intros [(a & Ha & Ea) (b & Hb & Eb)].
        apply String.eqb_eq in Ea, Eb. subst. auto.
      - intros [Ha Hb]. split; exists n; (split; [assumption | apply String.eqb_refl]). }
    rewrite <- Hhas.
    destruct (create_provider fresh n s) as [c|].
    + destruct Hspec as [Hh _]. split; [intros _; exact Hh | intros _; eexists; reflexivity].
    + split; [intros [c Hc]; discriminate | intros Hh; congruence].
  - rewrite Hids. apply NoDup_ListNoDup, List.seq_NoDup.
Qed.

(** C8, counterexample: with a key configured for Anthropic only, the
    identifier [anthropic] stands in the order and is listed among the
    providers that have a key, yet the chain holds no client for it. *)
Lemma anthropic_key_builds_no_client :
  In "anthropic" (Config.provider_order anthropic_only)
  /\ In "anthropic" (Config.available_providers anthropic_only)
  /\ create_provider 0 "anthropic" anthropic_only = None
  /\ create_provider_chain 0 anthropic_only = [].
Proof. cbn. repeat split; auto 10. Qed.

(** C8, instance: keys for Groq and OpenAI, default order. *)
Lemma chain_follows_order_witness :
  List.map (fun c => value (name c)) (create_provider_chain 0 two_keys) = ["groq"; "openai"]
  /\ ~ is_Some (create_provider 0 "gemini" two_keys)
  /\ is_Some (create_provider 0 "openai" two_keys)
  /\ NoDup (List.map obj_id (create_provider_chain 0 two_keys)).
Proof.
  destruct (chain_follows_order 0 two_keys) as (Hnames & Hiff & _ & Hnd).
  split; [rewrite Hnames; reflexivity|]. split; [|split; [|exact Hnd]].
  - intros Hsome. apply (Hiff "gemini") in Hsome as [_ Hav]; [|cbn; auto].
    cbn in Hav. intuition discriminate.
  - apply (Hiff "openai"); cbn; auto 10.
Defined.

End RegistryFacts.

(** ** The health check *)

Module HealthFacts.
Import LLM Fallback.

Local Abbreviation id_of := (fun cp : LLMClient * Probe => value (name (fst cp))).
Local Abbreviation check := (fun cp : LLMClient * Probe => check_provider (fst cp) (snd cp)).






End HealthFacts.

(** ** Dictionaries *)

Module PyDictFacts.
Import PyDict.

Section Facts.
Context {K V : Type} `{EqDecision K}.
Implicit Types (d : list (K * V)) (k : K) (v : V).

Lemma get_set_eq d k v : get (set d k v) k = Some v.
Proof.
  induction d as [|[k' v'] d IH]; cbn.
  - now rewrite decide_True.
  - destruct (decide (k' = k)) as [->|Hne]; cbn.
    + now rewrite decide_True.
    + now rewrite decide_False.
Qed.

Lemma get_set_ne d k k' v : k <> k' -> get (set d k v) k' = get d k'.
Proof.
  intros Hne. induction d as [|[k0 v0] d IH]; cbn.
  - now rewrite decide_False.
  - destruct (decide (k0 = k)) as [->|Hne0]; cbn.
    + now rewrite !decide_False.
    + destruct (decide (k0 = k')); [reflexivity | exact IH].
Qed.

Lemma get_del_eq d k : get (del d k) k = None.
Proof.
  induction d as [|[k' v'] d IH]; cbn; [reflexivity|].
  destruct (decide (k' = k)) as [->|Hne]; cbn; [exact IH|].
  now rewrite decide_False.
Qed.

Lemma get_del_ne d k k' : k <> k' -> get (del d k) k' = get d k'.
Proof.
  intros Hne. induction d as [|[k0 v0] d IH]; cbn; [reflexivity|].
  destruct (decide (k0 = k)) as [->|Hne0]; cbn.
  - now rewrite decide_False.
  - destruct (decide (k0 = k')); [reflexivity | exact IH].
Qed.

Lemma get_Some_In d k v : get d k = Some v -> In (k, v) d.
Proof.
  induction d as [|[k' v'] d IH]; cbn; [discriminate|].
  destruct (decide (k' = k)) as [->|Hne].
  - intros [= ->]. now left.
  - intros Hg. right. now apply IH.
Qed.

Lemma get_None_keys d k : get d k = None <-> ~ In k (List.map fst d).
Proof.
  induction d as [|[k' v'] d IH]; cbn; [tauto|].
  destruct (decide (k' = k)) as [->|Hne].
  - split; [discriminate | intros Hn; exfalso; apply Hn; now left].
  - rewrite IH. tauto.
Qed.

Lemma mem_true d k : mem d k = true <-> In k (List.map fst d).
Proof.
  unfold mem. destruct (get d k) eqn:E.
  - split; [intros _ | reflexivity].
    apply get_Some_In in E. change k with (fst (k, v)). now apply in_map.
  - apply get_None_keys in E. split; [discriminate | tauto].
Qed.

Lemma mem_false d k : mem d k = false <-> ~ In k (List.map fst d).
Proof. rewrite <- mem_true. destruct (mem d k); split; congruence. Qed.

(** Assigning to a key that is present keeps every key in place. *)
Lemma set_present_keys d k v :
  In k (List.map fst d) -> List.map fst (set d k v) = List.map fst d.
Proof.
  induction d as [|[k' v'] d IH]; cbn; [tauto|].
  destruct (decide (k' = k)) as [->|Hne]; cbn; [reflexivity|].
  intros [E | Hin]; [contradiction|]. now rewrite IH.
Qed.

(** Assigning to a new key appends it. *)
Lemma set_absent d k v : ~ In k (List.map fst d) -> set d k v = d ++ [(k, v)].
Proof.
  induction d as [|[k' v'] d IH]; cbn; [reflexivity|].
  intros Hn. destruct (decide (k' = k)) as [->|Hne]; [exfalso; apply Hn; now left|].
  rewrite IH; [reflexivity | tauto].
Qed.

Lemma del_absent d k : ~ In k (List.map fst d) -> del d k = d.
Proof.
  induction d as [|[k' v'] d IH]; cbn; [reflexivity|].
  intros Hn. destruct (decide (k' = k)) as [->|Hne]; [exfalso; apply Hn; now left|].
  rewrite IH; [reflexivity | tauto].
Qed.

Lemma del_app d1 d2 k : del (d1 ++ d2) k = del d1 k ++ del d2 k.
Proof.
  induction d1 as [|[k' v'] d1 IH]; cbn; [reflexivity|].
  destruct (decide (k' = k)); cbn; now rewrite IH.
Qed.

(** Deleting a key of a well-formed dictionary removes its one entry. *)
Lemma del_split d1 d2 k v :
  wf (d1 ++ (k, v) :: d2) -> del (d1 ++ (k, v) :: d2) k = d1 ++ d2.
Proof.
  unfold wf. rewrite List.map_app. cbn [List.map fst].
  intros Hnd. apply NoDup_app in Hnd as (_ & Hdisj & Hnd2).
  apply NoDup_cons in Hnd2 as [Hk2 _].
  rewrite del_app. cbn. rewrite decide_True by reflexivity.
  rewrite !del_absent; [reflexivity | |].
  - now rewrite <- list_elem_of_In.
  - intros Hin. apply (Hdisj k); [now apply list_elem_of_In | now left].
Qed.

Lemma del_keys_subset d k k' : In k' (List.map fst (del d k)) -> In k' (List.map fst d) /\ k' <> k.
Proof.
  induction d as [|[k0 v0] d IH]; cbn; [tauto|].
  destruct (decide (k0 = k)) as [->|Hne]; cbn.
  - intros Hin. destruct (IH Hin). tauto.
  - intros [E | Hin]; [subst; tauto|]. destruct (IH Hin). tauto.
Qed.

Lemma wf_del d k : wf d -> wf (del d k).
Proof.
  unfold wf. induction d as [|[k0 v0] d IH]; cbn; [auto|].
  intros Hnd. apply NoDup_cons in Hnd as [Hni Hnd].
  destruct (decide (k0 = k)); cbn; [auto|].
  apply NoDup_cons. split; [|auto].
  rewrite list_elem_of_In in *. intros Hin. apply del_keys_subset in Hin. tauto.
Qed.

Lemma wf_set d k v : wf d -> wf (set d k v).
Proof.
  intros Hwf. destruct (in_dec (fun a b => decide (a = b)) k (List.map fst d)) as [Hin|Hni].
  - unfold wf. now rewrite set_present_keys.
  - rewrite set_absent by assumption. unfold wf in *.
    rewrite List.map_app. cbn. apply NoDup_app. split; [assumption|]. split.
    + intros x Hx Hx'. apply list_elem_of_In in Hx, Hx'. destruct Hx' as [<-|[]]. tauto.
    + apply NoDup_singleton.
Qed.

Lemma length_set_present d k v :
  In k (List.map fst d) -> length (set d k v) = length d.
Proof.
  intros Hin. rewrite <- (length_map fst (set d k v)), set_present_keys by assumption.
  apply length_map.
Qed.

Lemma length_del_le d k : (length (del d k) <= length d)%nat.
Proof.
  induction d as [|[k0 v0] d IH]; cbn; [lia|].
  destruct (decide (k0 = k)); cbn; lia.
Qed.

(** The scan for the minimum stops at the first entry of least measure. *)
Lemma min_from_spec (f : V -> Z) (rest : list (K * V)) :
  forall best, exists pre kv post,
    best :: rest = pre ++ kv :: post
    /\ min_from f best rest = fst kv
    /\ (kv = best /\ pre = [] \/ f (snd kv) < f (snd best))
    /\ (forall e, In e pre -> f (snd kv) < f (snd e))
    /\ (forall e, In e post -> f (snd kv) <= f (snd e)).
Proof.
  induction rest as [|x rest IH]; intros best.
  - exists [], best, []. cbn. repeat split; auto; intros e [].
  - cbn [min_from]. destruct (Z.ltb_spec (f (snd x)) (f (snd best))) as [Hlt|Hge].
    + destruct (IH x) as (pre & kv & post & Hsplit & Hmin & Hrel & Hpre & Hpost).
      exists (best :: pre), kv, post.
      assert (Hkx : f (snd kv) <= f (snd x)) by (destruct Hrel as [[-> _]|]; lia).
      split; [cbn; now rewrite Hsplit|]. split; [exact Hmin|].
      split; [right; lia|]. split; [|exact Hpost].
      intros e [<-|He]; [lia | now apply Hpre].
    + destruct (IH best) as (pre & kv & post & Hsplit & Hmin & Hrel & Hpre & Hpost).
      destruct Hrel as [[-> ->] | Hlt].
      * injection Hsplit as <-.
        exists [], best, (x :: rest). cbn. split; [reflexivity|]. split; [exact Hmin|].
        split; [now left|]. split; [intros e []|].
        intros e [<-|He]; [lia | now apply Hpost].
      * destruct pre as [|b pre].
        { injection Hsplit as -> _. lia. }
        injection Hsplit as <- Hrest.
        exists (best :: x :: pre), kv, post.
        split; [cbn; now rewrite Hrest|]. split; [exact Hmin|].
        split; [now right|]. split; [|exact Hpost].
        intros e [<-|[<-|He]]; [lia | lia | apply Hpre; now right].
Qed.

(** [min_key] on a dictionary that is not empty: the first entry of least
    measure. *)
Lemma min_key_spec (f : V -> Z) d :
  d <> [] ->
  exists pre k v post,
    d = pre ++ (k, v) :: post
    /\ min_key f d = Some k
    /\ (forall e, In e pre -> f v < f (snd e))
    /\ (forall e, In e post -> f v <= f (snd e)).
Proof.
  destruct d as [|best rest]; [congruence|]. intros _.
  destruct (min_from_spec f rest best) as (pre & [k v] & post & Hsplit & Hmin & _ & Hpre & Hpost).
  exists pre, k, v, post. cbn [min_key]. rewrite Hmin. auto.
Qed.

End Facts.

End PyDictFacts.

(** ** The in-memory store *)

Module InMemoryFacts.
Import LLM Products Storage Storage.InMemory StoreSpec PyDictFacts.

(** A [save] of a key that is present replaces its session in place. *)
Lemma save_present st session :
  let key := _make_key (session_id session) (product session) in
  PyDict.mem (_sessions st) key = true ->
  save st session = Ok {| _sessions := PyDict.set (_sessions st) key session;
                          _max_sessions := _max_sessions st |}.
Proof. intros key Hm. unfold save. fold key. now rewrite Hm. Qed.

(** A [save] of a new key below capacity appends it. *)
Lemma save_room st session :
  let key := _make_key (session_id session) (product session) in
  PyDict.mem (_sessions st) key = false ->
  Z.of_nat (size st) < _max_sessions st ->
  save st session = Ok {| _sessions := _sessions st ++ [(key, session)];
                          _max_sessions := _max_sessions st |}.
Proof.
  intros key Hm Hlt. unfold save. fold key. rewrite Hm. cbn [negb andb].
  unfold size in Hlt.
  destruct (Z.leb_spec (_max_sessions st) (Z.of_nat (length (_sessions st)))); [lia|].
  rewrite set_absent; [reflexivity | now apply mem_false].
Qed.

(** A [save] of a new key at capacity, the store not being empty: the first
    entry of least [updated_at] goes, the new one is appended. *)
Lemma save_full st session :
  let key := _make_key (session_id session) (product session) in
  PyDict.wf (_sessions st) ->
  PyDict.mem (_sessions st) key = false ->
  _max_sessions st <= Z.of_nat (size st) ->
  _sessions st <> [] ->
  exists before victim oldest after,
    _sessions st = before ++ (victim, oldest) :: after
    /\ (forall e, In e before -> updated_at oldest < updated_at (snd e))
    /\ (forall e, In e after -> updated_at oldest <= updated_at (snd e))
    /\ save st session = Ok {| _sessions := before ++ after ++ [(key, session)];
                               _max_sessions := _max_sessions st |}.
Proof.
  intros key Hwf Hm Hfull Hne.
  destruct (min_key_spec updated_at (_sessions st) Hne)
    as (before & victim & oldest & after & Hsplit & Hmin & Hb & Ha).
  exists before, victim, oldest, after. repeat split; auto.
  unfold save. fold key. rewrite Hm. cbn [negb andb]. unfold size in Hfull.
  destruct (Z.leb_spec (_max_sessions st) (Z.of_nat (length (_sessions st)))); [|lia].
  rewrite Hmin. do 2 f_equal.
  rewrite Hsplit in Hwf |- *. rewrite (del_split _ _ _ _ Hwf).
  apply mem_false in Hm. rewrite Hsplit in Hm.
  rewrite set_absent; [now rewrite <- app_assoc|].
  intros Hin. apply Hm. rewrite List.map_app in *. cbn [List.map].
  apply in_app_or in Hin as [Hin|Hin]; apply in_or_app; [now left | right; now right].
Qed.

(** With nothing stored and a capacity that is not positive, [save] raises:
    [min()] is handed an empty sequence. *)
Lemma save_raises_on_empty session max_sessions :
  max_sessions <= 0 -> save (init max_sessions) session = Raise "ValueError".
Proof.
  intros Hle. unfold save, init. cbn.
  change (Z.of_nat 0) with 0.
  destruct (Z.leb_spec max_sessions 0); [reflexivity | lia].
Qed.

(** What holds of every reachable state: no key twice, the capacity it was
    built with, and no more than that many sessions. *)
Lemma reachable_inv N st :
  0 <= N -> reachable N st ->
  PyDict.wf (_sessions st) /\ _max_sessions st = N /\ Z.of_nat (size st) <= N.
Proof.
  intros HN Hr. induction Hr as [| st session st' Hr IH Hsave | st sid p Hr IH | st key session Hr IH Hm].
  - cbn. repeat split; [apply NoDup_nil_2 | lia].
  - destruct IH as (Hwf & Hmax & Hsize).
    set (key := _make_key (session_id session) (product session)) in *.
    destruct (PyDict.mem (_sessions st) key) eqn:Hm.
    + rewrite (save_present st session Hm) in Hsave. injection Hsave as Hst; subst st'.
      unfold size. cbn. split; [now apply wf_set|]. split; [assumption|].
      rewrite length_set_present; [exact Hsize | now apply mem_true].
    + destruct (Z.lt_ge_cases (Z.of_nat (size st)) (_max_sessions st)) as [Hlt|Hge].
      * rewrite (save_room st session Hm Hlt) in Hsave. injection Hsave as Hst; subst st'.
        unfold size in *. cbn. split; [|split; [assumption|]].
        -- pose proof (wf_set (_sessions st) key session Hwf) as Hw.
           rewrite set_absent in Hw; [exact Hw | now apply mem_false].
        -- rewrite length_app. cbn. lia.
      * destruct (_sessions st) as [|e0 rest] eqn:Hs.
        { unfold save in Hsave. rewrite Hs in Hsave. cbn in Hsave.
          unfold size in Hge. rewrite Hs in Hge. cbn in Hge.
          change (Z.of_nat 0) with 0 in Hsave.
          destruct (Z.leb_spec (_max_sessions st) 0); [discriminate | lia]. }
        assert (Hne : _sessions st <> []) by (rewrite Hs; discriminate).
        rewrite <- Hs in *.
        destruct (save_full st session Hwf Hm Hge Hne)
          as (before & victim & oldest & after & Hsplit & _ & _ & Hsave').
        rewrite Hsave' in Hsave. injection Hsave as Hst; subst st'.
        unfold size in *. cbn. split; [|split; [assumption|]].
        -- assert (Hwf' : PyDict.wf (before ++ after)).
           { rewrite Hsplit in Hwf. rewrite <- (del_split _ _ victim oldest Hwf).
             now apply wf_del. }
           assert (Habs : ~ In key (List.map fst (before ++ after))).
           { apply mem_false in Hm. rewrite Hsplit in Hm. intros Hin. apply Hm.
             rewrite List.map_app in *. cbn [List.map].
             apply in_app_or in Hin as [Hin|Hin]; apply in_or_app; [now left | right; now right]. }
           pose proof (wf_set (before ++ after) key session Hwf') as Hw.
           rewrite (set_absent _ _ _ Habs), <- app_assoc in Hw. exact Hw.
        -- rewrite Hsplit in Hsize. rewrite !length_app in *. cbn in *. lia.
  - destruct IH as (Hwf & Hmax & Hsize). unfold delete.
    destruct (PyDict.mem (_sessions st) (_make_key sid p)); cbn; [|auto].
    unfold size in *. cbn. split; [now apply wf_del|]. split; [assumption|].
    pose proof (length_del_le (_sessions st) (_make_key sid p)). lia.
  - destruct IH as (Hwf & Hmax & Hsize). unfold size in *. cbn.
    split; [now apply wf_set|]. split; [assumption|].
    rewrite length_set_present; [exact Hsize | now apply mem_true].
Qed.

(** C5: a store of capacity [N >= 1], in any state it can reach.
    Saving a key that is not present while [N] sessions (or more) are held
    evicts exactly one entry, the first in insertion order among those of
    least [updated_at], appends the new one, and leaves [N] sessions.
    Saving a key that is present keeps every key: nothing is evicted.
    Saving a new key below capacity appends it and evicts nothing.
    The store never holds more than [N] sessions, before or after any
    [save] or [delete]. *)
Theorem bounded_store_evicts_oldest N st session :
  1 <= N -> reachable N st ->
  let key := _make_key (session_id session) (product session) in
  (PyDict.mem (_sessions st) key = false -> N <= Z.of_nat (size st) ->
     exists before victim oldest after st',
       _sessions st = before ++ (victim, oldest) :: after
       /\ (forall e, In e before -> updated_at oldest < updated_at (snd e))
       /\ (forall e, In e after -> updated_at oldest <= updated_at (snd e))
       /\ save st session = Ok st'
       /\ _sessions st' = before ++ after ++ [(key, session)]
       /\ Z.of_nat (size st') = N)
  /\ (PyDict.mem (_sessions st) key = true ->
       exists st', save st session = Ok st'
         /\ List.map fst (_sessions st') = List.map fst (_sessions st)
         /\ size st' = size st)
  /\ (PyDict.mem (_sessions st) key = false -> Z.of_nat (size st) < N ->
       exists st', save st session = Ok st'
         /\ _sessions st' = _sessions st ++ [(key, session)])
  /\ Z.of_nat (size st) <= N
  /\ (forall st', save st session = Ok st' -> Z.of_nat (size st') <= N)
  /\ (forall sid p, Z.of_nat (size (snd (delete st sid p))) <= N).
Proof.
  intros HN Hr key.
  destruct (reachable_inv N st ltac:(lia) Hr) as (Hwf & Hmax & Hsize).
  split; [|split; [|split; [|split; [|split]]]].
  - intros Hm Hfull.
    assert (Hne : _sessions st <> []).
    { intros E. unfold size in Hfull. rewrite E in Hfull. cbn in Hfull. lia. }
    rewrite <- Hmax in Hfull.
    destruct (save_full st session Hwf Hm Hfull Hne)
      as (before & victim & oldest & after & Hsplit & Hb & Ha & Hsave).
    eexists before, victim, oldest, after, _.
    split; [exact Hsplit|]. split; [exact Hb|]. split; [exact Ha|].
    split; [exact Hsave|]. split; [reflexivity|].
    unfold size in *. cbn. rewrite Hsplit in Hsize, Hfull.
    rewrite !length_app in *. cbn in *. lia.
  - intros Hm. eexists. split; [now apply save_present|]. cbn. unfold size. cbn.
    apply mem_true in Hm. split; [now apply set_present_keys | now apply length_set_present].
  - intros Hm Hlt. eexists. split; [apply save_room; [exact Hm | lia]|]. reflexivity.
  - exact Hsize.
  - intros st' Hsave.
    exact (proj2 (proj2 (reachable_inv N st' ltac:(lia) (reach_save N st session st' Hr Hsave)))).
  - intros sid p.
    exact (proj2 (proj2 (reachable_inv N _ ltac:(lia) (reach_delete N st sid p Hr)))).
Qed.

End InMemoryFacts.

(** ** The Redis store *)

Module RedisFacts.
Import LLM Products Storage Storage.Redis RedisSpec PyDictFacts.

(** Building a dictionary from pairs with distinct keys gives the pairs. *)
Lemma of_pairs_acc {K V : Type} `{EqDecision K} (d : list (K * V)) :
  forall acc, PyDict.wf (acc ++ d) ->
    fold_left (fun d kv => PyDict.set d (fst kv) (snd kv)) d acc = acc ++ d.
Proof.
  induction d as [|[k v] d IH]; intros acc Hwf; cbn [fold_left fst snd].
  - now rewrite app_nil_r.
  - rewrite set_absent.
    + rewrite IH; rewrite <- app_assoc; [reflexivity | exact Hwf].
    + unfold PyDict.wf in Hwf. rewrite List.map_app in Hwf.
      apply NoDup_app in Hwf as (_ & Hdisj & _).
      intros Hin. apply (Hdisj k); [now apply list_elem_of_In | now left].
Qed.

Lemma of_pairs_wf {K V : Type} `{EqDecision K} (d : list (K * V)) :
  PyDict.wf d -> PyDict.of_pairs d = d.
Proof. intros Hwf. unfold PyDict.of_pairs. now rewrite of_pairs_acc. Qed.

(** What JSON represents as it is comes back from a dump and a load. *)
Lemma dumps_loads (v : pyval) :
  json_native v -> exists j, Json.dumps v = Some j /\ Json.loads j = v.
Proof.
  induction v as [| b | n | s | l IH | l IH | d IH | r] using pyval_induction;
    cbn [json_native]; intros Hn; try (eexists; split; reflexivity); try contradiction.
  - cbn [Json.dumps].
    match goal with |- context [option_map JArr (?f l)] => set (items := f) end.
    assert (Hitems : exists js, items l = Some js /\ List.map Json.loads js = l).
    { induction IH as [|x r Hx _ IHr]; [exists []; split; reflexivity|].
      destruct Hn as [Hnx Hnr].
      destruct (Hx Hnx) as (j & Hj & Hlj). destruct (IHr Hnr) as (js & Hjs & Hljs).
      exists (j :: js). subst items. cbn [List.map]. rewrite Hj, Hjs.
      split; [reflexivity | now rewrite Hlj, Hljs]. }
    destruct Hitems as (js & Hjs & Hl). rewrite Hjs. exists (JArr js).
    split; [reflexivity | cbn; now rewrite Hl].
  - destruct Hn as [Hwf Hn]. cbn [Json.dumps].
    match goal with |- context [option_map JObj (?f d)] => set (entries := f) end.
    assert (Hentries : exists es, entries d = Some es
              /\ List.map (fun kv => (KStr (fst kv), Json.loads (snd kv))) es = d).
    { clear Hwf. induction IH as [|[k x] r Hx _ IHr]; [exists []; split; reflexivity|].
      destruct Hn as (Hk & Hnx & Hnr). cbn [fst snd] in *.
      destruct k as [s|n]; [|contradiction].
      destruct (Hx Hnx) as (j & Hj & Hlj). destruct (IHr Hnr) as (es & Hes & Hles).
      exists ((s, j) :: es). subst entries. cbn [List.map fst snd Json.key_text]. rewrite Hj, Hes.
      split; [reflexivity | now rewrite Hlj, Hles]. }
    destruct Hentries as (es & Hes & Hd). rewrite Hes. exists (JObj es).
    split; [reflexivity|]. cbn [Json.loads]. rewrite Hd. now rewrite of_pairs_wf.
Qed.

Section WithCodec.
Variable codec : DateCodec.

Lemma to_messages_roundtrip (msgs : list Message) :
  to_messages
    (List.map (fun m => PDict [ (KStr "role", PStr (role m));
                                (KStr "content", PStr (content m)) ]) msgs)
  = Some msgs.
Proof.
  induction msgs as [|[r c] msgs IH]; [reflexivity|].
  cbn [List.map to_messages]. rewrite IH. reflexivity.
Qed.

(** The [Session(...)] call of [get] undoes the dictionary built by
    [save]. *)
Lemma of_data_to_data (session : Session) :
  codec_ok codec -> of_data codec (to_data codec session) = Some session.
Proof.
  intros Hc. destruct session as [sid prod msgs created updated meta].
  unfold of_data, to_data, get_str. cbn [session_id product messages created_at updated_at metadata].
  cbn [PyDict.get]. repeat first [rewrite decide_True by reflexivity | rewrite decide_False by discriminate].
  cbn [mbind option_bind].
  assert (Hp : Products.of_value (Products.value prod) = Some prod) by (now destruct prod).
  rewrite Hp. cbn [mbind option_bind]. rewrite to_messages_roundtrip. cbn [mbind option_bind].
  rewrite !Hc. reflexivity.
Qed.

Lemma messages_native (msgs : list Message) :
  json_native
    (PList (List.map (fun m => PDict [ (KStr "role", PStr (role m));
                                       (KStr "content", PStr (content m)) ]) msgs)).
Proof.
  cbn [json_native]. induction msgs as [|m msgs IH]; [exact I|].
  cbn [List.map]. split; [|exact IH].
  cbn. split; [|tauto].
  unfold PyDict.wf. cbn. apply NoDup_cons. split; [|apply NoDup_singleton].
  rewrite list_elem_of_In. cbn. intuition discriminate.
Qed.

(** The dictionary built by [save] is one JSON represents as it is, as soon
    as the metadata is. *)
Lemma to_data_native (session : Session) :
  json_native (PDict (metadata session)) -> json_native (to_data codec session).
Proof.
  intros Hmeta. unfold to_data.
  pose proof (messages_native (messages session)) as Hmsgs.
  cbn [json_native] in Hmeta, Hmsgs |- *.
  split.
  - unfold PyDict.wf. cbn [List.map fst].
    repeat (apply NoDup_cons; split; [rewrite list_elem_of_In; cbn; intuition discriminate|]).
    apply NoDup_nil_2.
  - cbn [fst snd is_str_key]. repeat split; try exact I; try exact Hmsgs; apply Hmeta.
Qed.

(** [save] of a session with JSON-native metadata under a positive TTL
    stores it, and a [get] before the record expires gives it back. *)
Lemma save_then_get (st : RedisSessionStorage) (now : Z) (session : Session) :
  codec_ok codec -> 0 < _ttl st -> json_native (PDict (metadata session)) ->
  exists text,
    Json.dumps (to_data codec session) = Some text
    /\ save codec st now session
       = Ok {| _ttl := _ttl st;
               keyspace := <[_make_key (session_id session) (product session)
                              := (text, now + _ttl st)]> (keyspace st) |}
    /\ forall st' later,
         save codec st now session = Ok st' ->
         later < now + _ttl st ->
         get codec st' later (session_id session) (product session) = Ok (Some session).
Proof.
  intros Hc Httl Hmeta.
  destruct (dumps_loads _ (to_data_native session Hmeta)) as (text & Hd & Hl).
  exists text. split; [exact Hd|].
  assert (Hsave : save codec st now session
       = Ok {| _ttl := _ttl st;
               keyspace := <[_make_key (session_id session) (product session)
                              := (text, now + _ttl st)]> (keyspace st) |}).
  { unfold save, client_setex. rewrite Hd.
    destruct (Z.ltb_spec 0 (_ttl st)); [reflexivity | lia]. }
  split; [exact Hsave|].
  intros st' later Hs Hlater. rewrite Hsave in Hs. injection Hs as Hst. subst st'.
  unfold get, client_get. cbn [keyspace]. rewrite lookup_insert_eq.
  destruct (Z.ltb_spec later (now + _ttl st)); [|lia].
  now rewrite Hl, of_data_to_data.
Qed.

(** [delete] reports whether a live record was there, and leaves none. *)
Lemma delete_spec (st : RedisSessionStorage) (now : Z) (sid : string) (p : ProductType) :
  (present st now sid p -> fst (delete st now sid p) = true)
  /\ (~ present st now sid p -> fst (delete st now sid p) = false)
  /\ (forall later, get codec (snd (delete st now sid p)) later sid p = Ok None).
Proof.
  unfold present, delete, client_delete.
  destruct (client_get (keyspace st) now (_make_key sid p)) as [data|] eqn:Eg; cbn [fst snd].
  - split; [reflexivity|]. split; [intros Hn; exfalso; apply Hn; eexists; reflexivity|].
    intros later. unfold get, client_get. cbn [keyspace]. now rewrite lookup_delete_eq.
  - split; [intros [? ?]; discriminate|]. split; [reflexivity|].
    intros later. unfold get, client_get. cbn [keyspace]. now rewrite lookup_delete_eq.
Qed.

End WithCodec.

Lemma decimal_codec_ok : codec_ok decimal_codec.
Proof.
  intros d. unfold decimal_codec. cbn [isoformat fromisoformat].
  rewrite DecimalString.NilEmpty.isi. cbn [option_map]. now rewrite DecimalZ.of_to.
Qed.

End RedisFacts.

(** ** Both stores *)

Module StoreFacts.
Import LLM Products Storage StoreSpec RedisSpec PyDictFacts.

(** With a capacity of at least one, [save] of the in-memory store does not
    raise, and the session is then found under its key. *)
Lemma memory_save_then_get (st : InMemory.InMemorySessionStorage) (session : Session) :
  1 <= InMemory._max_sessions st ->
  exists st', InMemory.save st session = Ok st'
    /\ InMemory.get st' (session_id session) (product session) = Some session.
Proof.
  intros Hcap. unfold InMemory.save, InMemory.get.
  set (key := InMemory._make_key (session_id session) (product session)).
  destruct (negb (PyDict.mem (InMemory._sessions st) key)
            && (InMemory._max_sessions st <=? Z.of_nat (length (InMemory._sessions st)))) eqn:Hguard.
  - apply andb_true_iff in Hguard as [_ Hfull]. apply Z.leb_le in Hfull.
    destruct (InMemory._sessions st) as [|e rest] eqn:Hs; [cbn in Hfull; lia|].
    cbn [PyDict.min_key]. eexists. split; [reflexivity|]. cbn. apply get_set_eq.
  - eexists. split; [reflexivity|]. cbn. apply get_set_eq.
Qed.

(** [delete] of the in-memory store. *)
Lemma memory_delete_spec (st : InMemory.InMemorySessionStorage) (sid : string) (p : ProductType) :
  (is_Some (InMemory.get st sid p) ->
     fst (InMemory.delete st sid p) = true
     /\ InMemory.get (snd (InMemory.delete st sid p)) sid p = None)
  /\ (InMemory.get st sid p = None -> InMemory.delete st sid p = (false, st)).
Proof.
  unfold InMemory.delete, InMemory.get, PyDict.mem.
  destruct (PyDict.get (InMemory._sessions st) (InMemory._make_key sid p)) eqn:Eg.
  - split; [|discriminate]. intros _. cbn. split; [reflexivity | apply get_del_eq].
  - split; [intros [? ?]; discriminate | reflexivity].
Qed.

(** C9 (amended): a session saved and then read under its own key comes
    back equal to the session saved, field for field: in the in-memory
    store whenever the capacity is at least one, and in the Redis store
    whenever the metadata is JSON-native (string keys, no tuples, nothing
    JSON cannot encode), the TTL is positive and the read happens before
    the record expires. In both stores [delete] on a present key returns
    [True] and a later [get] finds nothing, and [delete] on an absent key
    returns [False]. *)
Theorem save_get_roundtrip (mem : InMemory.InMemorySessionStorage) (codec : DateCodec)
    (rst : Redis.RedisSessionStorage) (now : Z) (session : Session) :
  1 <= InMemory._max_sessions mem ->
  codec_ok codec ->
  0 < Redis._ttl rst ->
  json_native (PDict (metadata session)) ->
  (exists mem', InMemory.save mem session = Ok mem'
     /\ InMemory.get mem' (session_id session) (product session) = Some session)
  /\ (exists rst', Redis.save codec rst now session = Ok rst'
       /\ forall later, later < now + Redis._ttl rst ->
            Redis.get codec rst' later (session_id session) (product session)
            = Ok (Some session))
  /\ (forall sid p,
        (is_Some (InMemory.get mem sid p) ->
           fst (InMemory.delete mem sid p) = true
           /\ InMemory.get (snd (InMemory.delete mem sid p)) sid p = None)
        /\ (InMemory.get mem sid p = None -> InMemory.delete mem sid p = (false, mem)))
  /\ (forall sid p,
        (present rst now sid p ->
           fst (Redis.delete rst now sid p) = true
           /\ forall later, Redis.get codec (snd (Redis.delete rst now sid p)) later sid p
                            = Ok None)
        /\ (~ present rst now sid p -> fst (Redis.delete rst now sid p) = false)).
Proof.
  intros Hcap Hc Httl Hmeta.
  split; [now apply memory_save_then_get|]. split; [|split].
  - destruct (RedisFacts.save_then_get codec rst now session Hc Httl Hmeta)
      as (text & _ & Hsave & Hget).
    eexists. split; [exact Hsave|]. intros later Hl. now apply Hget.
  - intros sid p. apply memory_delete_spec.
  - intros sid p.
    destruct (RedisFacts.delete_spec codec rst now sid p) as (Ht & Hf & Hg).
    split; [|exact Hf]. intros Hp. split; [now apply Ht | exact Hg].
Qed.

Lemma tagged_session_native : json_native (PDict (metadata tagged_session)).
Proof.
  cbn. split.
  - unfold PyDict.wf. cbn. apply NoDup_cons. split; [|apply NoDup_singleton].
    rewrite list_elem_of_In. cbn. intuition discriminate.
  - tauto.
Qed.

(** C9, instance: a tagged session, a full in-memory store of capacity 2
    and an empty Redis server with a TTL of one day. *)
Lemma save_get_roundtrip_witness :
  (exists mem', InMemory.save full_store tagged_session = Ok mem'
     /\ InMemory.get mem' "s1" CHATBOT = Some tagged_session)
  /\ (exists rst', Redis.save decimal_codec (Redis.init 86400) 100 tagged_session = Ok rst'
       /\ Redis.get decimal_codec rst' 200 "s1" CHATBOT = Ok (Some tagged_session)).
Proof.
  destruct (save_get_roundtrip full_store decimal_codec (Redis.init 86400) 100 tagged_session)
    as (Hmem & (rst' & Hsave & Hget) & _).
  - cbn. lia.
  - exact RedisFacts.decimal_codec_ok.
  - cbn. lia.
  - exact tagged_session_native.
  - split; [exact Hmem|]. exists rst'. split; [exact Hsave|]. apply Hget. cbn. lia.
Defined.

(** C9, counterexample: a session whose metadata is keyed by the integer
    [1] is saved to the Redis store and read back at once; the session
    read has its metadata keyed by the string ["1"] and so differs from the
    one saved. *)
Lemma int_keyed_metadata_not_preserved :
  exists rst' got,
    Redis.save decimal_codec (Redis.init 86400) 100 int_keyed_session = Ok rst'
    /\ Redis.get decimal_codec rst' 100 "s1" CHATBOT = Ok (Some got)
    /\ metadata int_keyed_session = [ (KInt 1, PStr "x") ]
    /\ metadata got = [ (KStr "1", PStr "x") ]
    /\ got <> int_keyed_session.
Proof.
  eexists _, _. split; [reflexivity|]. split; [vm_compute; reflexivity|].
  split; [reflexivity|]. split; [reflexivity|]. intros H. discriminate H.
Qed.




(** The capacity-2 store of the examples is reached by two saves. *)
Lemma full_store_reachable : reachable 2 full_store.
Proof.
  apply (reach_save 2
           {| InMemory._sessions := [ ("chatbot:s1", session_at "s1" CHATBOT 20) ];
              InMemory._max_sessions := 2 |}
           (session_at "s2" CHATBOT 10)); [|reflexivity].
  apply (reach_save 2 (InMemory.init 2) (session_at "s1" CHATBOT 20)); [|reflexivity].
  apply reach_init.
Qed.

(** C5, instance: a third session is saved to the full store of capacity
    2; the entry updated least recently goes and two sessions remain. *)
Lemma bounded_store_evicts_oldest_witness :
  exists st', InMemory.save full_store (session_at "s3" CHATBOT 30) = Ok st'
    /\ InMemory._sessions st'
       = [ ("chatbot:s1", session_at "s1" CHATBOT 20);
           ("chatbot:s3", session_at "s3" CHATBOT 30) ]
    /\ Z.of_nat (size st') = 2.
Proof.
  destruct (InMemoryFacts.bounded_store_evicts_oldest 2 full_store (session_at "s3" CHATBOT 30))
    as (Hevict & _).
  - lia.
  - exact full_store_reachable.
  - destruct Hevict as (before & victim & oldest & after & st' & _ & _ & _ & Hsave & _ & Hsize).
    + reflexivity.
    + cbn. lia.
    + exists st'. split; [exact Hsave|]. split; [|exact Hsize].
      assert (Hc : InMemory.save full_store (session_at "s3" CHATBOT 30)
                   = Ok {| InMemory._sessions :=
                             [ ("chatbot:s1", session_at "s1" CHATBOT 20);
                               ("chatbot:s3", session_at "s3" CHATBOT 30) ];
                           InMemory._max_sessions := 2 |}) by reflexivity.
      rewrite Hc in Hsave. injection Hsave as Hst. now subst st'.
Defined.

End StoreFacts.


(** ** Every run of the chain *)

Module FallbackRuns.
Import LLM Fallback Observer.

Section Runs.
Context {World : Type} (env : Env World).
Variable providers : list LLMClient.
Variable on_fallback : option (FallbackAttempt -> World -> World).
Variables (messages : list Message) (max_tokens : Z) (temperature : Q).

Local Abbreviation loop := (complete_loop env providers on_fallback messages max_tokens temperature).
Local Abbreviation run := (complete env providers on_fallback messages max_tokens temperature).
Local Abbreviation tell := (notify on_fallback).
Local Abbreviation last_eq := (is_last_provider providers).
Local Abbreviation failed := (fun a : FallbackAttempt => success a = false /\ Py.truthy (error a) = true).

(** What the loop does from any point on: it calls a prefix [more] of the
    clients left, in order, and ends in one of three ways. *)
Lemma loop_shape rest :
  forall atts calls w,
    let r := loop rest atts calls w in
    exists more rest',
      rest = more ++ rest'
      /\ invoked r = calls ++ more
      /\ match outcome r with
         | Returned fr =>
             exists fails ok p w0,
               attempts fr = atts ++ fails ++ [ok]
               /\ Forall failed fails
               /\ success ok = true /\ error ok = None
               /\ List.map provider (fails ++ [ok]) = List.map name more
               /\ last more = Some p
               /\ provider_complete env p messages max_tokens temperature w0
                  = (Completed (result fr), final r)
         | Raised site e =>
             exists fails,
               e = AllProvidersFailedError_init (atts ++ fails)
               /\ Forall failed fails
               /\ List.map provider fails = List.map name more
               /\ (site = AfterLoop -> rest' = [])
               /\ (site = InLoop ->
                     exists p a, last more = Some p /\ last_eq p = true
                                 /\ last fails = Some a /\ provider a = name p)
         | Propagated exn =>
             exists p w0, last more = Some p
               /\ provider_complete env p messages max_tokens temperature w0
                  = (Crashed exn, final r)
         end.
Proof.
  induction rest as [|p rest IH]; intros atts calls w; cbn zeta.
  - exists [], []. cbn [complete_loop outcome invoked final].
    split; [reflexivity|]. split; [now rewrite app_nil_r|].
    exists []. rewrite app_nil_r.
    split; [reflexivity|]. split; [constructor|]. split; [reflexivity|].
    split; [reflexivity | discriminate].
  - cbn [complete_loop].
    destruct (provider_complete env p messages max_tokens temperature w) as [reply w1] eqn:Hc.
    destruct reply as [res | e | exn].
    + exists [p], rest. cbn [outcome invoked final].
      split; [reflexivity|]. split; [reflexivity|].
      exists [], (success_attempt env p (elapsed_ms env w w1) w1), p, w.
      cbn [attempts result app List.map].
      split; [reflexivity|]. split; [constructor|]. split; [reflexivity|].
      split; [reflexivity|]. split; [reflexivity|]. split; [reflexivity | exact Hc].
    + set (att := failure_attempt env p e (elapsed_ms env w w1) w1).
      assert (Hatt : failed att).
      { subst att. cbn. split; [reflexivity | apply FallbackFacts.str_truthy]. }
      destruct (negb (retryable e) && last_eq p) eqn:Hg.
      * exists [p], rest. cbn [outcome invoked final].
        split; [reflexivity|]. split; [reflexivity|].
        exists [att]. split; [reflexivity|]. split; [constructor; [exact Hatt | constructor]|].
        split; [reflexivity|]. split; [discriminate|].
        intros _. apply andb_true_iff in Hg as [_ Hl].
        exists p, att. split; [reflexivity|]. split; [exact Hl|]. split; reflexivity.
      * specialize (IH (atts ++ [att]) (calls ++ [p]) (tell att w1)). cbn zeta in IH.
        destruct IH as (more & rest' & Hrest & Hinv & Hout).
        exists (p :: more), rest'. split; [cbn; now rewrite Hrest|].
        split; [rewrite Hinv; now rewrite <- app_assoc|].
        destruct (outcome (loop rest (atts ++ [att]) (calls ++ [p]) (tell att w1)))
          as [fr | site err | exn'].
        -- destruct Hout as (fails & ok & q & w0 & Ha & Hf & Hs & He & Hn & Hl & Hcall).
           exists (att :: fails), ok, q, w0. rewrite Ha, <- app_assoc.
           split; [reflexivity|]. split; [constructor; assumption|].
           split; [exact Hs|]. split; [exact He|].
           split; [cbn [app List.map]; cbn [app List.map] in Hn; now rewrite Hn|].
           split; [rewrite last_cons, Hl; reflexivity | exact Hcall].
        -- destruct Hout as (fails & He & Hf & Hn & Hafter & Hin).
           exists (att :: fails). rewrite He, <- app_assoc.
           split; [reflexivity|]. split; [constructor; assumption|].
           split; [cbn [List.map]; now rewrite Hn|]. split; [exact Hafter|].
           intros Hs. destruct (Hin Hs) as (q & a & Hl & Hq & Hla & Hpa).
           exists q, a. rewrite !last_cons, Hl, Hla. auto.
        -- destruct Hout as (q & w0 & Hl & Hcall).
           exists q, w0. rewrite last_cons, Hl. auto.
    + exists [p], rest. cbn [outcome invoked final].
      split; [reflexivity|]. split; [reflexivity|].
      exists p, w. split; [reflexivity | exact Hc].
Qed.

(** X1: whatever the backends do, [complete] calls a prefix of the
    configured providers, each position once and in the configured order;
    it never skips a provider, goes back to one, or calls one that is not
    configured. *)
Theorem calls_follow_configured_order (w : World) :
  exists rest,
    providers
    = invoked (complete env providers on_fallback messages max_tokens temperature w) ++ rest.
Proof.
  destruct (loop_shape providers [] [] w) as (more & rest' & Hrest & Hinv & _).
  cbn zeta in Hinv. exists rest'. unfold complete. now rewrite Hinv.
Qed.

(** X2: when [complete] returns, there is one attempt record per client
    called, in call order and under that client's provider name; the last
    record is the only success, every record before it is a failure with
    its error text, and the result handed back is the one the last client
    called returned, the world being left as that call left it. *)
Theorem returned_run_shape (w : World) (fr : FallbackResult) :
  outcome (run w) = Returned fr ->
  exists fails ok p w0,
    attempts fr = fails ++ [ok]
    /\ Forall failed fails
    /\ success ok = true /\ error ok = None
    /\ List.map provider (attempts fr) = List.map name (invoked (run w))
    /\ last (invoked (run w)) = Some p
    /\ provider_complete env p messages max_tokens temperature w0
       = (Completed (result fr), final (run w))
    /\ fallback_used fr = negb (Nat.eqb (length fails) 0).
Proof.
  intros Ho.
  destruct (loop_shape providers [] [] w) as (more & rest' & Hrest & Hinv & Hout).
  cbn zeta in Hinv, Hout. fold (run w) in Hinv, Hout. rewrite Ho in Hout.
  destruct Hout as (fails & ok & p & w0 & Ha & Hf & Hs & He & Hn & Hl & Hcall).
  cbn [app] in Ha, Hinv. exists fails, ok, p, w0. rewrite Hinv, Ha.
  repeat split; auto.
  unfold fallback_used. rewrite Ha, length_app. cbn [length].
  destruct fails as [|f fails]; [reflexivity|].
  cbn [length Nat.eqb negb]. apply Nat.ltb_lt. lia.
Qed.

(** X3: when [complete] raises [AllProvidersFailedError], the error carries
    one failure record per client called, in call order, and no success;
    its text is built from exactly those records. Raised behind the loop,
    every configured provider has been called; raised inside the loop, the
    last client called equals the last configured one. *)
Theorem raised_run_shape (w : World) (site : RaiseSite) (e : AllProvidersFailedError) :
  outcome (run w) = Raised site e ->
  Forall failed (err_attempts e)
  /\ List.map provider (err_attempts e) = List.map name (invoked (run w))
  /\ e = AllProvidersFailedError_init (err_attempts e)
  /\ (site = AfterLoop -> invoked (run w) = providers)
  /\ (site = InLoop ->
        exists p, last (invoked (run w)) = Some p /\ last_eq p = true).
Proof.
  intros Ho.
  destruct (loop_shape providers [] [] w) as (more & rest' & Hrest & Hinv & Hout).
  cbn zeta in Hinv, Hout. fold (run w) in Hinv, Hout. rewrite Ho in Hout.
  destruct Hout as (fails & He & Hf & Hn & Hafter & Hin).
  cbn [app] in He, Hinv. subst e. cbn [err_attempts]. rewrite Hinv.
  repeat split; auto.
  - intros Hs. rewrite (Hafter Hs), app_nil_r in Hrest. now symmetry.
  - intros Hs. destruct (Hin Hs) as (p & a & Hl & Hq & _). eauto.
Qed.

(** X4: an exception of a backend that is not a [ProviderError] is not
    turned into a fallback: the run ends with that exception at the client
    that raised it, no later provider is called, the observer is not told,
    and no [AllProvidersFailedError] is raised. *)
Theorem unclassified_exception_escapes pre p post w errs atts w_i exn w1 :
  providers = pre ++ p :: post ->
  fail_through env on_fallback messages max_tokens temperature pre w = Some (errs, atts, w_i) ->
  Forall2 (passes_on providers) pre errs ->
  provider_complete env p messages max_tokens temperature w_i = (Crashed exn, w1) ->
  run w = {| outcome := Propagated exn; invoked := pre ++ [p]; final := w1 |}.
Proof.
  intros Hsplit Hf Hp Hc.
  rewrite (FallbackFacts.run_reaches env providers on_fallback messages max_tokens temperature
             pre (p :: post) w errs atts w_i Hsplit Hf Hp).
  cbn [complete_loop]. now rewrite Hc.
Qed.

End Runs.

Section Observed.
Context {World : Type} (env : Env World).
Variable providers : list LLMClient.
Variables (messages : list Message) (max_tokens : Z) (temperature : Q).

Local Abbreviation plain := (complete_loop env providers None messages max_tokens temperature).
Local Abbreviation logged :=
  (complete_loop (logged_env env) providers (Some log_attempt) messages max_tokens temperature).

Lemma logged_call p w log :
  provider_complete (logged_env env) p messages max_tokens temperature (w, log)
  = (fst (provider_complete env p messages max_tokens temperature w),
     (snd (provider_complete env p messages max_tokens temperature w), log)).
Proof.
  cbn. now destruct (provider_complete env p messages max_tokens temperature w).
Qed.

(** The loop under the logging observer, beside the loop without
    observer. *)
Lemma logged_loop rest :
  forall atts calls w log,
    let r := plain rest atts calls w in
    let r' := logged rest atts calls (w, log) in
    outcome r' = outcome r
    /\ invoked r' = invoked r
    /\ fst (final r') = final r
    /\ exists told,
         snd (final r') = log ++ told
         /\ match outcome r with
            | Returned fr => exists ok, attempts fr = atts ++ told ++ [ok] /\ success ok = true
            | Raised _ e => err_attempts e = atts ++ told
            | Propagated _ => True
            end.
Proof.
  induction rest as [|p rest IH]; intros atts calls w log; cbn zeta.
  - cbn [complete_loop outcome invoked final fst snd].
    split; [reflexivity|]. split; [reflexivity|]. split; [reflexivity|].
    exists []. now rewrite !app_nil_r.
  - cbn [complete_loop]. rewrite logged_call.
    destruct (provider_complete env p messages max_tokens temperature w) as [reply w1] eqn:Hc.
    cbn [fst snd].
    destruct reply as [res | e | exn].
    + cbn [outcome invoked final fst snd].
      split; [reflexivity|]. split; [reflexivity|]. split; [reflexivity|].
      exists []. rewrite app_nil_r. split; [reflexivity|].
      eexists. cbn [attempts app]. split; reflexivity.
    + cbn [notify]. unfold log_attempt at 1. cbn [fst snd].
      destruct (negb (retryable e) && is_last_provider providers p).
      * cbn [outcome invoked final fst snd].
        split; [reflexivity|]. split; [reflexivity|]. split; [reflexivity|].
        eexists [_]. split; reflexivity.
      * destruct (IH (atts ++ [failure_attempt env p e (elapsed_ms env w w1) w1])
                    (calls ++ [p]) w1
                    (log ++ [failure_attempt env p e (elapsed_ms env w w1) w1]))
          as (Ho & Hi & Hw & told & Hlog & Hshape).
        cbn zeta in Ho, Hi, Hw, Hlog, Hshape.
        split; [exact Ho|]. split; [exact Hi|]. split; [exact Hw|].
        eexists (_ :: told). split; [etransitivity; [exact Hlog|]; rewrite <- app_assoc; reflexivity|].
        match goal with |- match ?o with _ => _ end => destruct o as [fr | site err | exn'] end.
        -- destruct Hshape as (ok & Ha & Hs). exists ok. rewrite Ha, <- app_assoc. auto.
        -- rewrite Hshape, <- app_assoc. reflexivity.
        -- exact I.
    + cbn [outcome invoked final fst snd].
      split; [reflexivity|]. split; [reflexivity|]. split; [reflexivity|].
      exists []. now rewrite app_nil_r.
Qed.

(** X5: an observer passed as [on_fallback] is handed every failed
    attempt, once and in call order, and never the successful one: when the
    run returns, the records it was handed followed by the success record
    are the attempts of the result; when the run raises
    [AllProvidersFailedError], they are the attempts of the error. Watching
    changes neither how the run ends nor which clients are called. *)
Theorem observer_sees_each_failure (w : World) :
  let r := complete env providers None messages max_tokens temperature w in
  let r' := complete (logged_env env) providers (Some log_attempt) messages max_tokens
              temperature (w, []) in
  outcome r' = outcome r
  /\ invoked r' = invoked r
  /\ fst (final r') = final r
  /\ match outcome r' with
     | Returned fr => exists ok, attempts fr = snd (final r') ++ [ok] /\ success ok = true
     | Raised _ e => err_attempts e = snd (final r')
     | Propagated _ => True
     end.
Proof.
  cbn zeta. unfold complete.
  destruct (logged_loop providers [] [] w []) as (Ho & Hi & Hw & told & Hlog & Hshape).
  cbn zeta in Ho, Hi, Hw, Hlog, Hshape. cbn [app] in Hlog, Hshape.
  split; [exact Ho|]. split; [exact Hi|]. split; [exact Hw|].
  rewrite Ho, Hlog. exact Hshape.
Qed.

End Observed.

Import Scenario ScenarioMore.

(** X2, instance: [a] rejects, [b] answers, in the chain [a; b; c]. *)
Lemma returned_run_shape_witness :
  exists fr fails ok,
    outcome (run_chain a_rejects [client_a; client_b; client_c]) = Returned fr
    /\ attempts fr = fails ++ [ok]
    /\ success ok = true
    /\ fallback_used fr = negb (Nat.eqb (length fails) 0).
Proof.
  pose (env := counting_env a_rejects).
  assert (Ho : exists fr, outcome (run_chain a_rejects [client_a; client_b; client_c]) = Returned fr)
    by (eexists; reflexivity).
  destruct Ho as [fr Ho].
  destruct (returned_run_shape env [client_a; client_b; client_c] None hello 1000 (7 # 10)
              0%nat fr Ho) as (fails & ok & p & w0 & Ha & _ & Hs & _ & _ & _ & _ & Hfb).
  exists fr, fails, ok. auto.
Defined.

(** X3, instance: both clients of [a; b] fail. *)
Lemma raised_run_shape_witness :
  exists site e,
    outcome (run_chain all_fail [client_a; client_b]) = Raised site e
    /\ List.map provider (err_attempts e) = [GROQ; GEMINI]
    /\ e = AllProvidersFailedError_init (err_attempts e).
Proof.
  pose (env := counting_env all_fail).
  assert (Ho : exists site e, outcome (run_chain all_fail [client_a; client_b]) = Raised site e)
    by (eexists _, _; reflexivity).
  destruct Ho as (site & e & Ho).
  destruct (raised_run_shape env [client_a; client_b] None hello 1000 (7 # 10) 0%nat site e Ho)
    as (_ & Hn & He & _).
  exists site, e. split; [exact Ho|]. split; [|exact He].
  rewrite Hn. reflexivity.
Defined.

(** X4, instance: [a] rejects and [b] breaks, in the chain [a; b; c]. *)
Lemma unclassified_exception_escapes_witness :
  run_chain others_crash [client_a; client_b; client_c]
  = {| outcome := Propagated "KeyError"; invoked := [client_a; client_b]; final := 2%nat |}.
Proof.
  pose (env := counting_env others_crash).
  apply (unclassified_exception_escapes env [client_a; client_b; client_c] None hello 1000
           (7 # 10) [client_a] client_b [client_c] 0%nat [bad_request]
           [failure_attempt env client_a bad_request (elapsed_ms env 0%nat 1%nat) 1%nat]
           1%nat "KeyError" 2%nat).
  - reflexivity.
  - reflexivity.
  - constructor; [right; reflexivity | constructor].
  - reflexivity.
Defined.

End FallbackRuns.

(** ** The registry and the chain together; the health map in general *)

Module ChainMore.
Import LLM Fallback Registry.

(** X6: in a chain built by [create_provider_chain] every client is an
    object of its own, so the fail-fast test [provider == self.providers[-1]]
    holds of a client exactly when it stands at the final position; no
    failure before the final position can end the run early. *)
Theorem registry_chain_fails_fast_only_at_end fresh s pre p post :
  create_provider_chain fresh s = pre ++ p :: post ->
  (is_last_provider (create_provider_chain fresh s) p = true <-> post = [])
  /\ (forall errs : list ProviderError, length errs = length pre ->
        Forall2 (passes_on (create_provider_chain fresh s)) pre errs).
Proof.
  intros Hsplit.
  assert (Hnd : NoDup (List.map obj_id (create_provider_chain fresh s))).
  { unfold create_provider_chain.
    destruct (RegistryFacts.chain_loop_spec s (Config.provider_order s) fresh [])
      as (added & Hch & _ & Hids & _).
    cbn zeta in Hch. cbn [app] in Hch. rewrite Hch, Hids.
    apply NoDup_ListNoDup, List.seq_NoDup. }
  split.
  - exact (FallbackFacts.last_provider_tail _ pre p post Hsplit Hnd).
  - intros errs Hlen.
    exact (FallbackFacts.distinct_passes_on _ pre p post errs Hsplit Hnd Hlen).
Qed.

(** X6, instance: the chain built from keys for Groq and OpenAI. *)
Lemma registry_chain_fails_fast_only_at_end_witness :
  exists g o,
    create_provider_chain 0 two_keys = [g; o]
    /\ is_last_provider (create_provider_chain 0 two_keys) g = false
    /\ is_last_provider (create_provider_chain 0 two_keys) o = true.
Proof.
  pose (g := {| obj_id := 0; name := GROQ; api_key := "gsk-1";
                model := "llama-3.3-70b-versatile" |}).
  pose (o := {| obj_id := 1; name := OPENAI; api_key := "sk-2"; model := "gpt-4o-mini" |}).
  assert (Hc : create_provider_chain 0 two_keys = [g; o]) by reflexivity.
  exists g, o. split; [exact Hc|].
  destruct (registry_chain_fails_fast_only_at_end 0 two_keys [] g [o] Hc) as [Hg _].
  destruct (registry_chain_fails_fast_only_at_end 0 two_keys [g] o [] Hc) as [Ho _].
  split.
  - destruct (is_last_provider (create_provider_chain 0 two_keys) g); [|reflexivity].
    assert (E : [o] = []) by (apply Hg; reflexivity). discriminate E.
  - now apply Ho.
Defined.

Local Abbreviation id_of := (fun cp : LLMClient * Probe => value (name (fst cp))).
Local Abbreviation check := (fun cp : LLMClient * Probe => check_provider (fst cp) (snd cp)).

Lemma collect_app checks1 checks2 (m : gmap string bool) :
  collect (checks1 ++ checks2) m = collect checks2 (collect checks1 m).
Proof.
  revert m. induction checks1 as [|[[n h]|exn] checks1 IH]; intros m; cbn; auto.
Qed.

(** A list of checks none of which reports under [n] leaves the entry of
    [n] alone. *)
Lemma collect_silent checks (m : gmap string bool) (n : string) :
  Forall (fun c => match c with inl (n', _) => n' <> n | inr _ => True end) checks ->
  collect checks m !! n = m !! n.
Proof.
  intros HF. revert m. induction HF as [|[[n' h]|exn] checks Hc _ IH]; intros m; cbn; auto.
  rewrite IH. now apply lookup_insert_ne.
Qed.

(** X7: the health map when provider names repeat. The entry of a name is
    the answer of the last probe under that name that did not raise (a
    time-out counting as the answer [False]): a later probe overwrites an
    earlier one, and a probe that raises neither removes nor changes the
    entry. A name under which every probe raised has no entry. *)
Theorem later_probe_wins (before after : list (LLMClient * Probe)) c p healthy :
  check_provider c p = inl (value (name c), healthy) ->
  Forall (fun cp => name (fst cp) = name c -> exists exn, check cp = inr exn) after ->
  health_check (before ++ (c, p) :: after) !! value (name c) = Some healthy.
Proof.
  intros Hc Hafter. unfold health_check.
  rewrite List.map_app, collect_app. cbn [List.map collect fst snd]. rewrite Hc.
  rewrite collect_silent; [apply lookup_insert_eq|].
  induction Hafter as [|[c' p'] after Hcp _ IH]; [constructor|].
  cbn [List.map]. constructor; [|exact IH].
  cbn [fst snd] in *. unfold check_provider in *.
  destruct (wait_for p' 10) as [h| |exn]; try exact I.
  - intros E. assert (En : name c' = name c) by (destruct (name c'), (name c); now try discriminate).
    destruct (Hcp En) as [exn Hx]. discriminate Hx.
  - intros E. assert (En : name c' = name c) by (destruct (name c'), (name c); now try discriminate).
    destruct (Hcp En) as [exn Hx]. discriminate Hx.
Qed.

(** X7, instance: two Groq clients, the first healthy, the second timing
    out: the entry of [groq] is [False]. *)
Lemma later_probe_wins_witness :
  health_check
    [ (Scenario.client_a, {| timing := Finishes 1; reply := Completed Scenario.answer |});
      (Scenario.client_a, {| timing := Never; reply := Completed Scenario.answer |}) ]
  !! "groq" = Some false.
Proof.
  apply (later_probe_wins
           [ (Scenario.client_a, {| timing := Finishes 1; reply := Completed Scenario.answer |}) ]
           [] Scenario.client_a {| timing := Never; reply := Completed Scenario.answer |} false).
  - reflexivity.
  - constructor.
Defined.

End ChainMore.

(** ** Listing the sessions of the in-memory store *)

Module ListingFacts.
Import LLM Products Storage Listing PyList.

Section Sorting.
Context {A : Type} (key : A -> Z).

Local Abbreviation desc := (fun a b : A => key b <= key a).

Lemma insert_desc_perm (x : A) (l : list A) : Permutation (insert_desc key x l) (x :: l).
Proof.
  induction l as [|y r IH]; cbn; [reflexivity|].
  destruct (key y <=? key x); [reflexivity|].
  rewrite IH. apply perm_swap.
Qed.

Lemma sort_desc_perm (l : list A) : Permutation (sort_desc key l) l.
Proof.
  induction l as [|x r IH]; cbn; [reflexivity|].
  rewrite insert_desc_perm. now constructor.
Qed.

Lemma insert_desc_sorted (x : A) (l : list A) :
  StronglySorted desc l -> StronglySorted desc (insert_desc key x l).
Proof.
  induction 1 as [|y r Hs IH Hall]; cbn.
  - repeat constructor.
  - destruct (Z.leb_spec (key y) (key x)) as [Hle|Hgt].
    + constructor; [now constructor|].
      constructor; [exact Hle|].
      eapply List.Forall_impl; [|exact Hall]. cbn. intros z Hz. lia.
    + constructor; [exact IH|].
      apply Forall_forall. intros z Hz.
      apply list_elem_of_In in Hz.
      apply (Permutation_in _ (insert_desc_perm x r)) in Hz.
      destruct Hz as [<-|Hz]; [lia|].
      rewrite Forall_forall in Hall. apply Hall. now apply list_elem_of_In.
Qed.

Lemma sort_desc_sorted (l : list A) : StronglySorted desc (sort_desc key l).
Proof.
  induction l as [|x r IH]; cbn; [constructor | now apply insert_desc_sorted].
Qed.

End Sorting.

Lemma slice_to_take {A : Type} (l : list A) (n : Z) :
  exists k, slice_to l n = take k l
    /\ (0 <= n -> k = Z.to_nat n)
    /\ (n < 0 -> k = Z.to_nat (Z.of_nat (length l) + n)).
Proof.
  unfold slice_to. destruct (Z.leb_spec 0 n).
  - eexists. split; [reflexivity|]. split; [reflexivity | lia].
  - eexists. split; [reflexivity|]. split; [lia | reflexivity].
Qed.

(** X8: [list_sessions] of the in-memory store returns stored sessions
    only, all of the product asked for when one is given, ordered by
    [updated_at] from the most recent down; what it leaves out of the
    sessions it chose from is never more recent than anything it returns. *)
Theorem list_sessions_most_recent_first (st : InMemory.InMemorySessionStorage)
    (product : option ProductType) (limit : Z) :
  let out := list_sessions st product limit in
  exists omitted,
    Permutation (out ++ omitted) (candidates st product)
    /\ StronglySorted (fun a b => updated_at b <= updated_at a) out
    /\ (forall a b, In a out -> In b omitted -> updated_at b <= updated_at a)
    /\ (forall s, In s out ->
          (exists key, In (key, s) (InMemory._sessions st))
          /\ (forall p, product = Some p -> Storage.product s = p)).
Proof.
  cbn zeta. unfold list_sessions. fold (candidates st product).
  set (sorted := sort_desc updated_at (candidates st product)).
  destruct (slice_to_take sorted limit) as (k & -> & _).
  exists (drop k sorted).
  pose proof (sort_desc_sorted updated_at (candidates st product)) as Hs. fold sorted in Hs.
  pose proof (sort_desc_perm updated_at (candidates st product)) as Hp. fold sorted in Hp.
  rewrite <- (take_drop k sorted) in Hs.
  split; [now rewrite take_drop|].
  split; [eapply StronglySorted_app_1_l; exact Hs|].
  split.
  - intros a b Ha Hb.
    apply (StronglySorted_app_1_elem_of _ _ _ a b Hs); now apply list_elem_of_In.
  - intros s Hin.
    assert (Hc : In s (candidates st product)).
    { apply (Permutation_in _ Hp). rewrite <- (take_drop k sorted).
      apply in_or_app. now left. }
    unfold candidates in Hc. destruct product as [p|].
    + apply filter_In in Hc as [Hc Hb]. apply bool_decide_eq_true in Hb.
      apply in_map_iff in Hc as ([key s'] & <- & Hks).
      split; [eauto|]. intros p' [= <-]. exact Hb.
    + apply in_map_iff in Hc as ([key s'] & <- & Hks).
      split; [eauto|]. discriminate.
Qed.

(** X8, instance: the most recent chatbot session of the store of the
    examples. *)
Lemma list_sessions_most_recent_first_witness :
  exists omitted,
    Permutation (list_sessions StoreSpec.full_store (Some CHATBOT) 1 ++ omitted)
                (candidates StoreSpec.full_store (Some CHATBOT))
    /\ forall a b, In a (list_sessions StoreSpec.full_store (Some CHATBOT) 1) ->
                   In b omitted -> updated_at b <= updated_at a.
Proof.
  destruct (list_sessions_most_recent_first StoreSpec.full_store (Some CHATBOT) 1)
    as (omitted & Hperm & _ & Hle & _).
  exists omitted. split; [exact Hperm | exact Hle].
Defined.

(** X9: how many sessions [list_sessions] returns. With [limit >= 0] it is
    [limit] or, if fewer are there to choose from, all of them (none for
    [limit = 0]). A negative [limit] is not refused: the slice
    [sessions[:limit]] then drops the [-limit] least recent sessions and
    returns the rest. *)
Theorem list_sessions_length (st : InMemory.InMemorySessionStorage)
    (product : option ProductType) (limit : Z) :
  let n := length (candidates st product) in
  (0 <= limit -> length (list_sessions st product limit) = Nat.min (Z.to_nat limit) n)
  /\ (limit < 0 ->
        length (list_sessions st product limit) = Z.to_nat (Z.of_nat n + limit)).
Proof.
  cbn zeta. unfold list_sessions. fold (candidates st product).
  set (sorted := sort_desc updated_at (candidates st product)).
  assert (Hlen : length sorted = length (candidates st product))
    by (apply Permutation_length, sort_desc_perm).
  destruct (slice_to_take sorted limit) as (k & -> & Hpos & Hneg).
  rewrite length_take, Hlen. split; intros Hl.
  - now rewrite (Hpos Hl).
  - rewrite (Hneg Hl), Hlen. lia.
Qed.

(** X9, instance: the store of the examples holds two chatbot sessions. *)
Lemma list_sessions_length_witness :
  length (list_sessions StoreSpec.full_store (Some CHATBOT) 1) = 1%nat
  /\ length (list_sessions StoreSpec.full_store (Some CHATBOT) (-1)) = 1%nat
  /\ length (list_sessions StoreSpec.full_store None 0) = 0%nat.
Proof.
  destruct (list_sessions_length StoreSpec.full_store (Some CHATBOT) 1) as [H1 _].
  destruct (list_sessions_length StoreSpec.full_store (Some CHATBOT) (-1)) as [_ H2].
  destruct (list_sessions_length StoreSpec.full_store None 0) as [H3 _].
  split; [rewrite H1 by lia; reflexivity|].
  split; [rewrite H2 by lia; reflexivity|].
  rewrite H3 by lia; reflexivity.
Defined.

End ListingFacts.

(** ** More on the two stores *)

Module StoreMore.
Import LLM Products Storage StoreSpec RedisSpec PyDictFacts.

Lemma value_colon_free_inj (p p' : ProductType) (sid sid' : string) :
  Products.value p +:+ ":" +:+ sid = Products.value p' +:+ ":" +:+ sid' ->
  p = p' /\ sid = sid'.
Proof.
  destruct p, p'; intros H; cbv in H; try discriminate H;
    (split; [reflexivity|]); congruence.
Qed.

Lemma memory_key_inj (sid sid' : string) (p p' : ProductType) :
  InMemory._make_key sid p = InMemory._make_key sid' p' -> sid = sid' /\ p = p'.
Proof. unfold InMemory._make_key. intros H. apply value_colon_free_inj in H. tauto. Qed.

Lemma redis_key_inj (sid sid' : string) (p p' : ProductType) :
  Redis._make_key sid p = Redis._make_key sid' p' -> sid = sid' /\ p = p'.
Proof.
  unfold Redis._make_key. intros H.
  apply (inj (String.append "session:")) in H.
  apply value_colon_free_inj in H. tauto.
Qed.

(** X10: the storage keys tell the (product, session id) pairs apart: two
    pairs have the same key, in the in-memory store or in the Redis store,
    only if they are the same pair, whatever characters the session id
    holds (a colon included). *)
Theorem storage_keys_injective (sid sid' : string) (p p' : ProductType) :
  (InMemory._make_key sid p = InMemory._make_key sid' p' <-> sid = sid' /\ p = p')
  /\ (Redis._make_key sid p = Redis._make_key sid' p' <-> sid = sid' /\ p = p').
Proof.
  split; split.
  - apply memory_key_inj.
  - intros [-> ->]. reflexivity.
  - apply redis_key_inj.
  - intros [-> ->]. reflexivity.
Qed.

Lemma set_same {K V : Type} `{EqDecision K} (d : list (K * V)) (k : K) (v : V) :
  PyDict.get d k = Some v -> PyDict.set d k v = d.
Proof.
  induction d as [|[k' v'] d IH]; cbn; [discriminate|].
  destruct (decide (k' = k)) as [->|Hne].
  - now intros [= ->].
  - intros Hg. now rewrite IH.
Qed.

(** X11: saving the same session a second time changes nothing: the second
    [save] of the in-memory store returns the store the first one left, and
    so does a second [save] of the Redis store at the same instant. *)
Theorem save_twice_is_save_once (mem mem1 : InMemory.InMemorySessionStorage)
    (codec : DateCodec) (rst rst1 : Redis.RedisSessionStorage) (now : Z) (session : Session) :
  (InMemory.save mem session = Ok mem1 -> InMemory.save mem1 session = Ok mem1)
  /\ (Redis.save codec rst now session = Ok rst1 -> Redis.save codec rst1 now session = Ok rst1).
Proof.
  split.
  - intros Hs.
    set (key := InMemory._make_key (session_id session) (product session)).
    assert (Hg : PyDict.get (InMemory._sessions mem1) key = Some session).
    { unfold InMemory.save in Hs. fold key in Hs.
      destruct (negb (PyDict.mem (InMemory._sessions mem) key)
                && (InMemory._max_sessions mem <=? Z.of_nat (length (InMemory._sessions mem)))).
      - destruct (PyDict.min_key updated_at (InMemory._sessions mem)); [|discriminate].
        injection Hs as <-. cbn. apply get_set_eq.
      - injection Hs as <-. cbn. apply get_set_eq. }
    rewrite InMemoryFacts.save_present; fold key.
    + rewrite (set_same _ _ _ Hg). now destruct mem1.
    + unfold PyDict.mem. now rewrite Hg.
  - intros Hs. unfold Redis.save, Redis.client_setex in *.
    destruct (Json.dumps (Redis.to_data codec session)) as [text|]; [|discriminate].
    destruct (0 <? Redis._ttl rst) eqn:Httl; [|discriminate].
    injection Hs as <-. cbn [Redis._ttl Redis.keyspace]. rewrite Httl.
    now rewrite insert_insert_eq.
Qed.

(** X11, instance: a third session saved twice to the full store. *)
Lemma save_twice_is_save_once_witness :
  exists mem1,
    InMemory.save full_store (session_at "s3" CHATBOT 30) = Ok mem1
    /\ InMemory.save mem1 (session_at "s3" CHATBOT 30) = Ok mem1.
Proof.
  pose (mem1 := {| InMemory._sessions :=
                     [ ("chatbot:s1", session_at "s1" CHATBOT 20);
                       ("chatbot:s3", session_at "s3" CHATBOT 30) ];
                   InMemory._max_sessions := 2 |}).
  exists mem1. split; [reflexivity|].
  apply (proj1 (save_twice_is_save_once full_store mem1 decimal_codec (Redis.init 86400)
                  (Redis.init 86400) 0 (session_at "s3" CHATBOT 30))).
  reflexivity.
Defined.



(** X13: a [save] touches no session but its own, except for the one
    eviction. In the Redis store every other (product, id) reads as before.
    In the in-memory store every other (product, id) reads as before, or
    has been evicted, which happens only to the entry [min] picks when the
    key saved is new and the store is at capacity. *)
Theorem save_leaves_others (mem mem' : InMemory.InMemorySessionStorage)
    (codec : DateCodec) (rst rst' : Redis.RedisSessionStorage) (now later : Z)
    (session : Session) (sid : string) (p : ProductType) :
  (sid, p) <> (session_id session, product session) ->
  (InMemory.save mem session = Ok mem' ->
     InMemory.get mem' sid p = InMemory.get mem sid p
     \/ (InMemory.get mem' sid p = None
         /\ PyDict.min_key updated_at (InMemory._sessions mem)
            = Some (InMemory._make_key sid p)
         /\ InMemory.get mem (session_id session) (product session) = None
         /\ InMemory._max_sessions mem <= Z.of_nat (size mem)))
  /\ (Redis.save codec rst now session = Ok rst' ->
        Redis.get codec rst' later sid p = Redis.get codec rst later sid p).
Proof.
  intros Hne.
  assert (Hk : InMemory._make_key (session_id session) (product session)
               <> InMemory._make_key sid p).
  { intros E. symmetry in E. apply memory_key_inj in E as [-> ->]. now apply Hne. }
  assert (Hk' : Redis._make_key (session_id session) (product session)
                <> Redis._make_key sid p).
  { intros E. symmetry in E. apply redis_key_inj in E as [-> ->]. now apply Hne. }
  split.
  - intros Hs. unfold InMemory.save in Hs. unfold InMemory.get.
    set (key := InMemory._make_key (session_id session) (product session)) in *.
    destruct (PyDict.mem (InMemory._sessions mem) key) eqn:Hm; cbn [negb andb] in Hs.
    + injection Hs as <-. left. cbn. now apply get_set_ne.
    + destruct (Z.leb_spec (InMemory._max_sessions mem)
                  (Z.of_nat (length (InMemory._sessions mem)))) as [Hfull|Hroom].
      * destruct (PyDict.min_key updated_at (InMemory._sessions mem)) as [oldest|] eqn:Hmin;
          [|discriminate].
        injection Hs as <-. cbn [InMemory._sessions].
        rewrite get_set_ne by exact Hk.
        destruct (decide (oldest = InMemory._make_key sid p)) as [->|Ho].
        -- right. split; [apply get_del_eq|]. split; [reflexivity|].
           split; [|exact Hfull].
           unfold PyDict.mem in Hm. now destruct (PyDict.get (InMemory._sessions mem) key).
        -- left. now apply get_del_ne.
      * injection Hs as <-. left. cbn. now apply get_set_ne.
  - intros Hs. unfold Redis.save, Redis.client_setex in Hs.
    destruct (Json.dumps (Redis.to_data codec session)) as [text|]; [|discriminate].
    destruct (0 <? Redis._ttl rst); [|discriminate].
    injection Hs as <-. unfold Redis.get, Redis.client_get. cbn [Redis.keyspace].
    now rewrite lookup_insert_ne.
Qed.

(** X13, instance: saving a third session to the full store evicts
    [chatbot:s2] and leaves [chatbot:s1] as it was. *)
Lemma save_leaves_others_witness :
  exists mem',
    InMemory.save full_store (session_at "s3" CHATBOT 30) = Ok mem'
    /\ InMemory.get mem' "s1" CHATBOT = InMemory.get full_store "s1" CHATBOT
    /\ InMemory.get mem' "s2" CHATBOT = None.
Proof.
  pose (mem1 := {| InMemory._sessions :=
                     [ ("chatbot:s1", session_at "s1" CHATBOT 20);
                       ("chatbot:s3", session_at "s3" CHATBOT 30) ];
                   InMemory._max_sessions := 2 |}).
  exists mem1. split; [reflexivity|]. split; [|reflexivity].
  destruct (save_leaves_others full_store mem1 decimal_codec (Redis.init 86400)
              (Redis.init 86400) 0 0 (session_at "s3" CHATBOT 30) "s1" CHATBOT) as [Hmem _].
  - discriminate.
  - destruct (Hmem eq_refl) as [Hsame | (Hnone & _)]; [exact Hsame|].
    discriminate Hnone.
Defined.

End StoreMore.

(** ** The three clients *)

Module ProviderFacts.
Import LLM Fallback Providers ProviderSpec.

Section Shipped.
Context {World : Type} (sdk : Sdk World).

(** No reply of a shipped client is an unclassified exception, and a
    failure names the client's provider. *)
Lemma shipped_reply_classified (c : LLMClient) messages max_tokens temperature (w : World) :
  name c <> ANTHROPIC ->
  match fst (provider_complete (shipped_env sdk) c messages max_tokens temperature w) with
  | Completed res => cr_provider res = name c /\ cr_model res = model c
  | Failed e => pe_provider e = name c
  | Crashed _ => False
  end.
Proof.
  intros Hn. cbn [shipped_env provider_complete].
  destruct (name c) eqn:En; [| | |congruence].
  - unfold groq_complete.
    destruct (groq_create sdk (api_key c) (model c) messages max_tokens temperature w) as [o w1].
    destruct o; cbn; auto.
  - unfold gemini_complete. destruct (_convert_messages messages) as [si history].
    destruct (last history) as [t|]; [|cbn; auto].
    destruct (parts t) as [|m ?]; [cbn; auto|].
    destruct (gemini_send sdk (api_key c) (model c) _ (removelast history) m max_tokens
                temperature w) as [o w1].
    destruct o; cbn; auto.
  - unfold openai_complete.
    destruct (openai_create sdk (api_key c) (model c) messages max_tokens temperature w) as [o w1].
    destruct o; cbn; auto.
Qed.

(** X14: a chain of shipped clients (Groq, Gemini, OpenAI) lets no other
    exception out: whatever the SDKs do, every exception of class
    [Exception] they raise in the [try] body of a client included,
    [FallbackChain.complete] either returns a result or raises
    [AllProvidersFailedError]. *)
Theorem shipped_chain_returns_or_raises (providers : list LLMClient)
    (on_fallback : option (FallbackAttempt -> World -> World))
    (messages : list Message) (max_tokens : Z) (temperature : Q) (w : World) :
  Forall (fun c => name c <> ANTHROPIC) providers ->
  (exists fr, outcome (complete (shipped_env sdk) providers on_fallback messages max_tokens
                         temperature w) = Returned fr)
  \/ (exists site e, outcome (complete (shipped_env sdk) providers on_fallback messages
                                max_tokens temperature w) = Raised site e).
Proof.
  intros Hall.
  destruct (FallbackRuns.loop_shape (shipped_env sdk) providers on_fallback messages max_tokens
              temperature providers [] [] w) as (more & rest' & Hrest & _ & Hout).
  cbn zeta in Hout. unfold complete.
  destruct (outcome (complete_loop (shipped_env sdk) providers on_fallback messages max_tokens
                       temperature providers [] [] w)) as [fr | site e | exn].
  - left. eauto.
  - right. eauto.
  - exfalso. destruct Hout as (p & w0 & Hl & Hc).
    assert (Hp : name p <> ANTHROPIC).
    { rewrite Forall_forall in Hall. apply Hall. rewrite Hrest.
      apply elem_of_app. left. eapply last_Some_elem_of; eauto. }
    pose proof (shipped_reply_classified p messages max_tokens temperature w0 Hp) as Hcl.
    now rewrite Hc in Hcl.
Qed.


(** X16: when a chain of shipped clients returns, the result names the
    provider of the one successful attempt and the model of the client that
    answered, and its cost is that client's [estimate_cost] of the token
    counts it reports. *)
Theorem returned_result_is_consistent (providers : list LLMClient)
    (on_fallback : option (FallbackAttempt -> World -> World))
    (messages : list Message) (max_tokens : Z) (temperature : Q) (w : World)
    (fr : FallbackResult) :
  Forall (fun c => name c <> ANTHROPIC) providers ->
  outcome (complete (shipped_env sdk) providers on_fallback messages max_tokens temperature w)
  = Returned fr ->
  exists p ok,
    In p providers
    /\ last (attempts fr) = Some ok
    /\ success ok = true
    /\ provider ok = cr_provider (result fr)
    /\ cr_provider (result fr) = name p
    /\ cr_model (result fr) = model p
    /\ cost_usd (result fr)
       = estimate_cost p (input_tokens (result fr)) (output_tokens (result fr)).
Proof.
  intros Hall Ho.
  destruct (FallbackRuns.loop_shape (shipped_env sdk) providers on_fallback messages max_tokens
              temperature providers [] [] w) as (more & rest' & Hrest & _ & Hout).
  cbn zeta in Hout. unfold complete in Ho. rewrite Ho in Hout.
  destruct Hout as (fails & ok & p & w0 & Ha & _ & Hs & _ & Hn & Hl & Hc).
  cbn [app] in Ha.
  assert (Hin : In p providers).
  { rewrite Hrest. apply in_or_app. left. apply list_elem_of_In.
    eapply last_Some_elem_of; eauto. }
  assert (Hp : name p <> ANTHROPIC).
  { rewrite Forall_forall in Hall. apply Hall. now apply list_elem_of_In. }
  assert (Hok : provider ok = name p).
  { apply last_Some in Hl as [more' ->].
    rewrite !List.map_app in Hn. cbn [List.map] in Hn.
    apply app_inj_tail in Hn. tauto. }
  exists p, ok. split; [exact Hin|]. split; [rewrite Ha; apply last_snoc|].
  split; [exact Hs|].
  pose proof (shipped_reply_classified p messages max_tokens temperature w0 Hp) as Hcl.
  rewrite Hc in Hcl. cbn [fst] in Hcl. destruct Hcl as [Hprov Hmodel].
  split; [congruence|]. split; [exact Hprov|]. split; [exact Hmodel|].
  clear - Hc Hp. cbn [shipped_env provider_complete] in Hc.
  destruct (name p) eqn:En; [| | |congruence].
  - unfold groq_complete in Hc.
    destruct (groq_create sdk (api_key p) (model p) messages max_tokens temperature w0) as [o w1].
    destruct o; cbn in Hc; try discriminate. injection Hc as <- _. reflexivity.
  - unfold gemini_complete in Hc. destruct (_convert_messages messages) as [si history].
    destruct (last history) as [t|]; [|discriminate].
    destruct (parts t) as [|m ?]; [discriminate|].
    destruct (gemini_send sdk (api_key p) (model p) _ (removelast history) m max_tokens
                temperature w0) as [o w1].
    destruct o; cbn in Hc; try discriminate. injection Hc as <- _. reflexivity.
  - unfold openai_complete in Hc.
    destruct (openai_create sdk (api_key p) (model p) messages max_tokens temperature w0) as [o w1].
    destruct o; cbn in Hc; try discriminate. injection Hc as <- _. reflexivity.
Qed.

(** X17: the Gemini client asked to complete a conversation without any
    user or assistant message (an empty list, or system messages only)
    does not call the SDK: it fails at once, the world untouched, with a
    [ProviderError] that is not retryable and whose message is the text of
    the inner "No user message provided" error wrapped as an unexpected
    error. *)
Theorem gemini_without_turns_fails (c : LLMClient) (messages : list Message)
    (max_tokens : Z) (temperature : Q) (w : World) :
  Forall (fun m => role m <> "user" /\ role m <> "assistant") messages ->
  gemini_complete sdk c messages max_tokens temperature w
  = (Failed {| pe_provider := name c;
               message := "Unexpected error: " +:+ value (name c)
                          +:+ ": No user message provided";
               status_code := None; retryable := false |}, w).
Proof.
  intros Hall. unfold gemini_complete, _convert_messages.
  assert (Hloop : forall si, _convert_messages_loop messages si []
                             = (fst (_convert_messages_loop messages si []), [])).
  { induction Hall as [|m ms [Hu Ha] _ IH]; intros si; [reflexivity|].
    cbn [_convert_messages_loop].
    apply String.eqb_neq in Hu, Ha. rewrite Hu, Ha.
    destruct (String.eqb (role m) "system"); apply IH. }
  rewrite Hloop. cbn. reflexivity.
Qed.

End Shipped.

Lemma demo_chain_shipped :
  Forall (fun c => name c <> ANTHROPIC) [groq_client; openai_client].
Proof. repeat constructor; discriminate. Qed.

(** X14, instance: Groq answers 503 and OpenAI answers. *)
Lemma shipped_chain_returns_or_raises_witness :
  exists fr,
    outcome (complete (shipped_env demo_sdk) [groq_client; openai_client] None
               probe_messages 5 (7 # 10) 0%nat) = Returned fr.
Proof.
  destruct (shipped_chain_returns_or_raises demo_sdk [groq_client; openai_client] None
              probe_messages 5 (7 # 10) 0%nat demo_chain_shipped) as [H | (site & e & H)].
  - exact H.
  - discriminate H.
Defined.


(** X16, instance: the answer of OpenAI after the failure of Groq. *)
Lemma returned_result_is_consistent_witness :
  exists fr,
    outcome (complete (shipped_env demo_sdk) [groq_client; openai_client] None
               probe_messages 5 (7 # 10) 0%nat) = Returned fr
    /\ cr_provider (result fr) = OPENAI
    /\ cost_usd (result fr) = estimate_cost openai_client 12 7.
Proof.
  assert (Ho : exists fr,
             outcome (complete (shipped_env demo_sdk) [groq_client; openai_client] None
                        probe_messages 5 (7 # 10) 0%nat) = Returned fr)
    by (eexists; reflexivity).
  destruct Ho as [fr Ho].
  destruct (returned_result_is_consistent demo_sdk [groq_client; openai_client] None
              probe_messages 5 (7 # 10) 0%nat fr demo_chain_shipped Ho)
    as (p & ok & _ & _ & _ & _ & _ & _ & _).
  exists fr. split; [exact Ho|].
  injection Ho as <-. split; reflexivity.
Defined.

(** X17, instance: a conversation holding a system message only. *)
Lemma gemini_without_turns_fails_witness :
  gemini_complete demo_sdk gemini_client
    [ {| role := "system"; content := "You are helpful." |} ] 5 (7 # 10) 0%nat
  = (Failed {| pe_provider := GEMINI;
               message := "Unexpected error: gemini: No user message provided";
               status_code := None; retryable := false |}, 0%nat).
Proof.
  apply (gemini_without_turns_fails demo_sdk gemini_client
           [ {| role := "system"; content := "You are helpful." |} ] 5 (7 # 10) 0%nat).
  constructor; [split; discriminate | constructor].
Defined.

(** The loop of [_convert_messages] only ever appends to the history it is
    given, and keeps the instruction it is given unless it meets one. *)
Lemma convert_loop_acc (messages : list Message) :
  forall si history,
    _convert_messages_loop messages si history
    = (match fst (_convert_messages messages) with Some s => Some s | None => si end,
       history ++ snd (_convert_messages messages)).
Proof.
  unfold _convert_messages.
  induction messages as [|m ms IH]; intros si history; cbn [_convert_messages_loop].
  - cbn. now rewrite app_nil_r.
  - destruct (String.eqb (role m) "system").
    { rewrite (IH (Some (content m)) history), (IH (Some (content m)) []). cbn [fst snd app].
      destruct (fst (_convert_messages_loop ms None [])); reflexivity. }
    destruct (String.eqb (role m) "user").
    { rewrite (IH si (history ++ _)), (IH None ([] ++ _)). cbn [fst snd app].
      rewrite <- app_assoc.
      destruct (fst (_convert_messages_loop ms None [])); reflexivity. }
    destruct (String.eqb (role m) "assistant").
    { rewrite (IH si (history ++ _)), (IH None ([] ++ _)). cbn [fst snd app].
      rewrite <- app_assoc.
      destruct (fst (_convert_messages_loop ms None [])); reflexivity. }
    apply IH.
Qed.

Lemma convert_loop_app (ms1 ms2 : list Message) :
  forall si history,
    _convert_messages_loop (ms1 ++ ms2) si history
    = _convert_messages_loop ms2 (fst (_convert_messages_loop ms1 si history))
        (snd (_convert_messages_loop ms1 si history)).
Proof.
  induction ms1 as [|m ms1 IH]; intros si history; cbn [app _convert_messages_loop].
  - reflexivity.
  - destruct (String.eqb (role m) "system"); [apply IH|].
    destruct (String.eqb (role m) "user"); [apply IH|].
    destruct (String.eqb (role m) "assistant"); apply IH.
Qed.

Lemma convert_turns_shape (ms : list Message) :
  Forall (fun t => (turn_role t = "user" \/ turn_role t = "model")
                   /\ length (parts t) = 1%nat) (snd (_convert_messages ms))
  /\ (length (snd (_convert_messages ms)) <= length ms)%nat.
Proof.
  induction ms as [|m ms [IHf IHl]]; [split; [constructor | reflexivity]|].
  unfold _convert_messages. cbn [_convert_messages_loop].
  destruct (String.eqb (role m) "system").
  { rewrite convert_loop_acc. cbn [snd app length]. split; [exact IHf | lia]. }
  destruct (String.eqb (role m) "user").
  { rewrite convert_loop_acc. cbn [snd app length].
    split; [constructor; [cbn; auto | exact IHf] | lia]. }
  destruct (String.eqb (role m) "assistant").
  { rewrite convert_loop_acc. cbn [snd app length].
    split; [constructor; [cbn; auto | exact IHf] | lia]. }
  rewrite convert_loop_acc. cbn [snd app length]. split; [exact IHf | lia].
Qed.

(** X18: [GeminiClient._convert_messages] works message by message. The
    history of a conversation followed by another is the history of the
    first followed by the history of the second, and the system instruction
    is the one of the second when it has one, else the one of the first:
    of several system messages the last one counts. Every entry of the
    history has the role ["user"] or ["model"] and exactly one part, and
    there are no more entries than messages. *)
Theorem convert_messages_app (ms1 ms2 : list Message) :
  fst (_convert_messages (ms1 ++ ms2))
    = match fst (_convert_messages ms2) with
      | Some s => Some s
      | None => fst (_convert_messages ms1)
      end
  /\ snd (_convert_messages (ms1 ++ ms2))
     = snd (_convert_messages ms1) ++ snd (_convert_messages ms2)
  /\ Forall (fun t => (turn_role t = "user" \/ turn_role t = "model") /\ length (parts t) = 1%nat)
            (snd (_convert_messages ms1))
  /\ (length (snd (_convert_messages ms1)) <= length ms1)%nat.
Proof.
  assert (Happ : _convert_messages (ms1 ++ ms2)
                 = (match fst (_convert_messages ms2) with
                    | Some s => Some s
                    | None => fst (_convert_messages ms1)
                    end,
                    snd (_convert_messages ms1) ++ snd (_convert_messages ms2))).
  { unfold _convert_messages at 1. rewrite convert_loop_app, convert_loop_acc.
    reflexivity. }
  rewrite Happ. cbn [fst snd].
  split; [reflexivity|]. split; [reflexivity|]. apply convert_turns_shape.
Qed.

Lemma collect_is_some checks :
  forall (m : gmap string bool) (n : string),
    is_Some (collect checks m !! n)
    <-> is_Some (m !! n) \/ exists h, In (inl (n, h)) checks.
Proof.
  induction checks as [|[[n' h']|exn] checks IH]; intros m n; cbn [collect].
  - split; [now left | intros [H | [h []]]; exact H].
  - rewrite IH. split.
    + intros [Hs | [h Hin]].
      * destruct (decide (n' = n)) as [->|Hne].
        { right. exists h'. now left. }
        { left. now rewrite lookup_insert_ne in Hs. }
      * right. exists h. now right.
    + intros [Hs | [h [E | Hin]]].
      * left. destruct (decide (n' = n)) as [->|Hne].
        { rewrite lookup_insert_eq. eauto. }
        { now rewrite lookup_insert_ne. }
      * injection E as -> ->. left. rewrite lookup_insert_eq. eauto.
      * right. eauto.
  - rewrite IH. split.
    + intros [Hs | [h Hin]]; [now left | right; exists h; now right].
    + intros [Hs | [h [E | Hin]]]; [now left | discriminate E | right; eauto].
Qed.

Lemma collect_true checks :
  forall (m : gmap string bool) (n : string),
    collect checks m !! n = Some true ->
    m !! n = Some true \/ In (inl (n, true)) checks.
Proof.
  induction checks as [|[[n' h']|exn] checks IH]; intros m n; cbn [collect].
  - now left.
  - intros H. apply IH in H as [H | H]; [|right; now right].
    destruct (decide (n' = n)) as [->|Hne].
    + rewrite lookup_insert_eq in H. injection H as ->. right. now left.
    + rewrite lookup_insert_ne in H by exact Hne. now left.
  - intros H. apply IH in H as [H | H]; [now left | right; now right].
Qed.

Section ShippedHealth.
Context {World : Type} (sdk : Sdk World).

(** The probe of a shipped client: what its [complete] answers to the
    request of [LLMClient.health_check] (the message [Hi], 5 tokens, the
    default temperature) in some world. *)
Local Abbreviation probe_of := (fun cp : LLMClient * Probe =>
  name (fst cp) <> ANTHROPIC
  /\ exists w, reply (snd cp)
               = fst (provider_complete (shipped_env sdk) (fst cp) probe_messages 5 (7 # 10) w)).

(** X19: the health map of a chain of shipped clients. Their [complete]
    turns every exception of class [Exception] into a [ProviderError], so
    no probe raises past [check_provider]: the map has an entry for the
    name of every configured client and for no other name, whatever the
    SDKs do and however long they take. An entry is [True] only if a
    client of that name got an answer from its SDK within the 10
    seconds. *)
Theorem shipped_health_map_is_complete (probes : list (LLMClient * Probe)) :
  Forall probe_of probes ->
  (forall n, is_Some (health_check probes !! n)
             <-> exists c p, In (c, p) probes /\ value (name c) = n)
  /\ (forall n, health_check probes !! n = Some true ->
         exists c p d res,
           In (c, p) probes /\ value (name c) = n
           /\ timing p = Finishes d /\ (d <= 10)%Q
           /\ reply p = Completed res /\ cr_provider res = name c).
Proof.
  intros Hall. unfold health_check. split.
  - intros n. rewrite collect_is_some. split.
    + intros [Hs | [h Hin]].
      * rewrite lookup_empty in Hs. destruct Hs as [? ?]; discriminate.
      * apply in_map_iff in Hin as ([c p] & Hc & Hin). cbn [fst snd] in Hc.
        exists c, p. split; [exact Hin|].
        unfold check_provider in Hc. destruct (wait_for p 10); congruence.
    + intros (c & p & Hin & <-). right.
      assert (Hp : probe_of (c, p)).
      { rewrite Forall_forall in Hall. apply Hall. now apply list_elem_of_In. }
      destruct Hp as (Hn & w & Hr). cbn [fst snd] in Hn, Hr.
      pose proof (shipped_reply_classified sdk c probe_messages 5 (7 # 10) w Hn) as Hcl.
      rewrite <- Hr in Hcl.
      assert (Hck : exists h, check_provider c p = inl (value (name c), h)).
      { unfold check_provider, wait_for. destruct (timing p) as [d|]; [|eauto].
        destruct (Qle_bool d 10); [|eauto].
        destruct (reply p); cbn; eauto. destruct Hcl. }
      destruct Hck as [h Hck]. exists h. rewrite <- Hck.
      change (check_provider c p)
        with ((fun cp : LLMClient * Probe => check_provider (fst cp) (snd cp)) (c, p)).
      now apply in_map.
  - intros n Hn. apply collect_true in Hn as [Hn | Hin].
    { rewrite lookup_empty in Hn. discriminate. }
    apply in_map_iff in Hin as ([c p] & Hc & Hin). cbn [fst snd] in Hc.
    assert (Hp : probe_of (c, p)).
    { rewrite Forall_forall in Hall. apply Hall. now apply list_elem_of_In. }
    destruct Hp as (Hna & w & Hr). cbn [fst snd] in Hna, Hr.
    pose proof (shipped_reply_classified sdk c probe_messages 5 (7 # 10) w Hna) as Hcl.
    rewrite <- Hr in Hcl.
    unfold check_provider, wait_for in Hc.
    destruct (timing p) as [d|] eqn:Ht; [|discriminate].
    destruct (Qle_bool d 10) eqn:Hd; [|discriminate].
    destruct (reply p) as [res | e | exn] eqn:Hrp; cbn in Hc; try discriminate.
    injection Hc as <-.
    exists c, p, d, res. split; [exact Hin|]. split; [reflexivity|].
    split; [exact Ht|]. split; [now apply Qle_bool_iff|]. split; [exact Hrp | apply Hcl].
Qed.

End ShippedHealth.

(** X19, instance: Groq answers 503, OpenAI answers; both names have an
    entry. *)
Lemma shipped_health_map_is_complete_witness :
  is_Some (health_check demo_probes !! "groq")
  /\ is_Some (health_check demo_probes !! "openai").
Proof.
  assert (Hall : Forall (fun cp : LLMClient * Probe =>
                   name (fst cp) <> ANTHROPIC
                   /\ exists w, reply (snd cp)
                                = fst (provider_complete (shipped_env demo_sdk) (fst cp)
                                         probe_messages 5 (7 # 10) w)) demo_probes).
  { repeat constructor; try discriminate; exists 0%nat; reflexivity. }
  destruct (shipped_health_map_is_complete demo_sdk demo_probes Hall) as [Hdom _].
  split.
  - apply Hdom. eexists groq_client, _. split; [left; reflexivity | reflexivity].
  - apply Hdom. eexists openai_client, _. split; [right; left; reflexivity | reflexivity].
Defined.

End ProviderFacts.

(** ** The completion route over the in-memory store *)

Module RouteFacts.
Import LLM Fallback Products Storage Storage.InMemory CompletionRoute.

(** A store built for at least one session never fails to [save]. *)
Lemma save_ok (st : InMemorySessionStorage) (session : Session) :
  1 <= _max_sessions st -> exists st', save st session = Ok st'.
Proof.
  intros HN. unfold save.
  destruct (negb _ && (_max_sessions st <=? Z.of_nat (length (_sessions st)))) eqn:Hc;
    [|eauto].
  apply andb_true_iff in Hc as [_ Hfull]. apply Z.leb_le in Hfull.
  destruct (_sessions st) as [|kv rest]; [cbn in Hfull; lia|].
  cbn [PyDict.min_key]. eauto.
Qed.

(** After a [save] that returns, the session sits under its own key. *)
Lemma save_get_own (st st' : InMemorySessionStorage) (session : Session) :
  save st session = Ok st' ->
  get st' (session_id session) (product session) = Some session
  /\ _max_sessions st' = _max_sessions st.
Proof.
  unfold save, get.
  destruct (negb _ && _).
  - destruct (PyDict.min_key _ _); [|discriminate].
    intros [= <-]. cbn. split; [apply PyDictFacts.get_set_eq | reflexivity].
  - intros [= <-]. cbn. split; [apply PyDictFacts.get_set_eq | reflexivity].
Qed.

Section Route.
Context {World : Type} (env : Env World).
Variable prompts : ProductType -> string.
Variable providers : list LLMClient.
Variable on_fallback : option (FallbackAttempt -> World -> World).

Local Abbreviation route := (create_completion env prompts providers on_fallback).
Local Abbreviation run_of := (chain_run env prompts providers on_fallback).
Local Abbreviation history_of := (history prompts).

(** X20: a request the chain answers, on a store with room for at least
    one session whose entry under the key of the request (if any) is the
    session of that key. The route sends the chain the conversation so far
    (the stored messages, or the system prompt of the product for a new
    session) followed by the user message; it answers with the content,
    provider and model of the result; and afterwards the store holds,
    under the key of the request, that conversation followed by the user
    message and the assistant's reply, and nothing after them, stamped
    with the clock at the end of the call. *)
Theorem completion_extends_session (request : CompletionRequest)
    (st : InMemorySessionStorage) (w : World) (fr : FallbackResult) :
  own_key request st ->
  1 <= _max_sessions st ->
  outcome (run_of request st w) = Returned fr ->
  exists resp st' s',
    route request st w = (Sent resp, st', final (run_of request st w))
    /\ response resp = cr_content (Fallback.result fr)
    /\ resp_provider resp = LLM.value (cr_provider (Fallback.result fr))
    /\ resp_model resp = cr_model (Fallback.result fr)
    /\ resp_fallback_used resp = fallback_used fr
    /\ get st' (req_session_id request) (req_product request) = Some s'
    /\ session_id s' = req_session_id request
    /\ product s' = req_product request
    /\ messages s'
       = history_of request st
         ++ [ user_message request;
              {| role := "assistant"; content := cr_content (Fallback.result fr) |} ]
    /\ updated_at s' = utcnow env (final (run_of request st w)).
Proof.
  intros Hown HN Hrun.
  unfold chain_run, history in Hrun |- *. unfold create_completion, own_key in *.
  destruct (get st (req_session_id request) (req_product request)) as [s|] eqn:Hget.
  - destruct (Hown s eq_refl) as [Hsid Hprod].
    cbn [through_alias add_message messages] in *. unfold user_message in *.
    rewrite Hrun.
    match goal with |- context [save ?st2 ?sess] =>
      destruct (save_ok st2 sess HN) as [st' Hsave];
      pose proof (save_get_own st2 st' sess Hsave) as [Hg _] end.
    rewrite Hsave. cbn [session_id product add_message] in Hg. rewrite Hsid, Hprod in Hg.
    eexists _, st', _. split; [reflexivity|].
    cbn [response resp_provider resp_model resp_fallback_used].
    split; [reflexivity|]. split; [reflexivity|]. split; [reflexivity|].
    split; [reflexivity|]. split; [exact Hg|].
    cbn [session_id product messages updated_at add_message].
    split; [exact Hsid|]. split; [exact Hprod|].
    split; [now rewrite <- app_assoc | reflexivity].
  - cbn [through_alias add_message messages] in *. unfold user_message in *.
    rewrite Hrun.
    match goal with |- context [save ?st2 ?sess] =>
      destruct (save_ok st2 sess HN) as [st' Hsave];
      pose proof (save_get_own st2 st' sess Hsave) as [Hg _] end.
    rewrite Hsave. cbn [session_id product add_message] in Hg.
    eexists _, st', _. split; [reflexivity|].
    cbn [response resp_provider resp_model resp_fallback_used].
    split; [reflexivity|]. split; [reflexivity|]. split; [reflexivity|].
    split; [reflexivity|]. split; [exact Hg|].
    cbn [session_id product messages updated_at add_message].
    split; [reflexivity|]. split; [reflexivity|].
    split; [now rewrite <- app_assoc | reflexivity].
Qed.

(** X21: a request on which the chain raises [AllProvidersFailedError].
    The route raises an [HTTPException] with status 503 whose detail is
    the text of that error, and saves nothing. A session that did not
    exist is not created: the store is as before. But a session that was
    stored has changed all the same: [get] handed out the stored object,
    and the user message was appended to it before the chain was called.
    The store then holds that session with the unanswered user message at
    the end of its history and [updated_at] moved to the time of the
    request; every other session is untouched. *)
Theorem failed_completion_keeps_user_message (request : CompletionRequest)
    (st : InMemorySessionStorage) (w : World) (site : RaiseSite)
    (e : AllProvidersFailedError) :
  outcome (run_of request st w) = Raised site e ->
  exists st',
    route request st w
    = (HTTPException 503 "All providers unavailable" (err_text e), st',
       final (run_of request st w))
    /\ length (_sessions st') = length (_sessions st)
    /\ (forall sid p, (sid, p) <> (req_session_id request, req_product request) ->
          get st' sid p = get st sid p)
    /\ match get st (req_session_id request) (req_product request) with
       | None => st' = st
       | Some s =>
           exists s',
             get st' (req_session_id request) (req_product request) = Some s'
             /\ messages s' = messages s ++ [user_message request]
             /\ updated_at s' = utcnow env w
             /\ created_at s' = created_at s
       end.
Proof.
  intros Hrun.
  unfold chain_run, history in Hrun |- *. unfold create_completion.
  destruct (get st (req_session_id request) (req_product request)) as [s|] eqn:Hget.
  - cbn [through_alias add_message messages] in *. unfold user_message in *.
    rewrite Hrun. eexists. split; [reflexivity|].
    split.
    { cbn [_sessions]. apply PyDictFacts.length_set_present.
      apply PyDictFacts.mem_true. unfold get in Hget. unfold PyDict.mem. now rewrite Hget. }
    split.
    { intros sid p Hne. unfold get. cbn [_sessions].
      apply PyDictFacts.get_set_ne. intros E.
      apply StoreMore.memory_key_inj in E as [<- <-]. now apply Hne. }
    eexists. split; [unfold get; cbn [_sessions]; apply PyDictFacts.get_set_eq|].
    cbn [messages updated_at created_at]. split; [reflexivity|]. split; reflexivity.
  - cbn [through_alias add_message messages] in *. unfold user_message in *.
    rewrite Hrun. exists st. split; [reflexivity|]. split; [reflexivity|].
    split; [reflexivity | reflexivity].
Qed.

End Route.

Section ShippedRoute.
Context {World : Type} (sdk : Providers.Sdk World).

(** The chain of shipped clients lets no exception of theirs through. *)
Lemma shipped_never_propagates (providers : list LLMClient)
    (on_fallback : option (FallbackAttempt -> World -> World))
    (msgs : list Message) (max_tokens : Z) (temperature : Q) (w : World) (exn : string) :
  Forall (fun c => name c <> ANTHROPIC) providers ->
  outcome (complete (Providers.shipped_env sdk) providers on_fallback msgs max_tokens
             temperature w) <> Propagated exn.
Proof.
  intros Hall Ho.
  destruct (FallbackRuns.loop_shape (Providers.shipped_env sdk) providers on_fallback msgs
              max_tokens temperature providers [] [] w) as (more & rest' & Hrest & _ & Hout).
  cbn zeta in Hout. unfold complete in Ho. rewrite Ho in Hout.
  destruct Hout as (p & w0 & Hl & Hc).
  assert (Hp : name p <> ANTHROPIC).
  { rewrite Forall_forall in Hall. apply Hall. rewrite Hrest.
    apply elem_of_app. left. eapply last_Some_elem_of; eauto. }
  pose proof (ProviderFacts.shipped_reply_classified sdk p msgs max_tokens temperature w0 Hp)
    as Hcl.
  now rewrite Hc in Hcl.
Qed.

(** X22: the route over a chain of shipped clients and an in-memory store
    built for at least one session lets no exception of class [Exception]
    out, whatever the request, the stored sessions and the SDKs: it
    either sends a response or raises the [HTTPException] with status 503,
    whose detail starts with the words of [AllProvidersFailedError]. *)
Theorem shipped_route_answers_or_503 (prompts : ProductType -> string)
    (providers : list LLMClient)
    (on_fallback : option (FallbackAttempt -> World -> World))
    (request : CompletionRequest) (st : InMemorySessionStorage) (w : World) :
  Forall (fun c => name c <> ANTHROPIC) providers ->
  1 <= _max_sessions st ->
  (exists resp st' w',
     create_completion (Providers.shipped_env sdk) prompts providers on_fallback request st w
     = (Sent resp, st', w'))
  \/ (exists rest st' w',
        create_completion (Providers.shipped_env sdk) prompts providers on_fallback request st w
        = (HTTPException 503 "All providers unavailable" ("All providers failed: " +:+ rest),
           st', w')).
Proof.
  intros Hall HN. unfold create_completion.
  set (stored := get st (req_session_id request) (req_product request)).
  match goal with |- context [outcome (complete _ _ _ ?m ?mt ?t _)] =>
    pose proof (fun exn => shipped_never_propagates providers on_fallback m mt t w exn Hall)
      as Hnp;
    pose proof (FallbackRuns.loop_shape (Providers.shipped_env sdk) providers on_fallback
                  m mt t providers [] [] w) as Hshape;
    destruct (outcome (complete (Providers.shipped_env sdk) providers on_fallback m mt t w))
      as [fr | site e | exn] eqn:Ho
  end.
  - left.
    match goal with |- context [save ?st2 ?sess] =>
      destruct (save_ok st2 sess) as [st' Hsave] end.
    { destruct stored; exact HN. }
    rewrite Hsave. eauto.
  - right. cbn zeta in Hshape. destruct Hshape as (more & rest' & _ & _ & Hout).
    unfold complete in Ho. rewrite Ho in Hout. destruct Hout as (fails & -> & _).
    cbn [err_text AllProvidersFailedError_init]. eauto.
  - exfalso. now apply (Hnp exn).
Qed.

End ShippedRoute.

(** X20, instance: a follow-up in the stored session [s1]; the first
    client rejects the request, the second answers. *)
Lemma completion_extends_session_witness :
  exists resp st' s',
    create_completion (Scenario.counting_env Scenario.a_rejects) RouteScenario.demo_prompts
      [Scenario.client_a; Scenario.client_b] None RouteScenario.follow_up
      StoreSpec.full_store 0%nat
    = (Sent resp, st', 2%nat)
    /\ response resp = "Hello"
    /\ resp_fallback_used resp = true
    /\ get st' "s1" CHATBOT = Some s'
    /\ messages s'
       = [ {| role := "user"; content := "Hi" |};
           {| role := "user"; content := "And then?" |};
           {| role := "assistant"; content := "Hello" |} ].
Proof.
  assert (Hown : own_key RouteScenario.follow_up StoreSpec.full_store).
  { intros s Hs. vm_compute in Hs. injection Hs as <-. split; reflexivity. }
  assert (HN : 1 <= _max_sessions StoreSpec.full_store) by (cbn; lia).
  assert (Ho : exists fr,
             outcome (chain_run (Scenario.counting_env Scenario.a_rejects)
                        RouteScenario.demo_prompts [Scenario.client_a; Scenario.client_b] None
                        RouteScenario.follow_up StoreSpec.full_store 0%nat) = Returned fr
             /\ cr_content (Fallback.result fr) = "Hello"
             /\ fallback_used fr = true)
    by (eexists; split; [reflexivity | split; reflexivity]).
  destruct Ho as (fr & Ho & Hc & Hf).
  destruct (completion_extends_session (Scenario.counting_env Scenario.a_rejects)
              RouteScenario.demo_prompts [Scenario.client_a; Scenario.client_b] None
              RouteScenario.follow_up StoreSpec.full_store 0%nat fr Hown HN Ho)
    as (resp & st' & s' & Hr & Hresp & _ & _ & Hfb & Hg & _ & _ & Hm & _).
  exists resp, st', s'. split; [exact Hr|].
  split; [now rewrite Hresp|]. split; [now rewrite Hfb|]. split; [exact Hg|].
  rewrite Hm, Hc. reflexivity.
Defined.

(** X21, instance: the same follow-up when both clients fail. *)
Lemma failed_completion_keeps_user_message_witness :
  exists detail st' s',
    create_completion (Scenario.counting_env Scenario.all_fail) RouteScenario.demo_prompts
      [Scenario.client_a; Scenario.client_b] None RouteScenario.follow_up
      StoreSpec.full_store 0%nat
    = (HTTPException 503 "All providers unavailable" detail, st', 2%nat)
    /\ get st' "s1" CHATBOT = Some s'
    /\ messages s'
       = [ {| role := "user"; content := "Hi" |};
           {| role := "user"; content := "And then?" |} ].
Proof.
  assert (Ho : exists site e,
             outcome (chain_run (Scenario.counting_env Scenario.all_fail)
                        RouteScenario.demo_prompts [Scenario.client_a; Scenario.client_b] None
                        RouteScenario.follow_up StoreSpec.full_store 0%nat) = Raised site e)
    by (eexists _, _; reflexivity).
  destruct Ho as (site & e & Ho).
  destruct (failed_completion_keeps_user_message (Scenario.counting_env Scenario.all_fail)
              RouteScenario.demo_prompts [Scenario.client_a; Scenario.client_b] None
              RouteScenario.follow_up StoreSpec.full_store 0%nat site e Ho)
    as (st' & Hr & _ & _ & Hs).
  change (get StoreSpec.full_store (req_session_id RouteScenario.follow_up)
            (req_product RouteScenario.follow_up))
    with (Some (StoreSpec.session_at "s1" CHATBOT 20)) in Hs.
  destruct Hs as (s' & Hg & Hm & _).
  exists (err_text e), st', s'. split; [exact Hr|]. split; [exact Hg | exact Hm].
Defined.

(** X22, instance: a first message in a new session, Groq answering 503
    and OpenAI answering. *)
Lemma shipped_route_answers_or_503_witness :
  exists resp st' w',
    create_completion (Providers.shipped_env ProviderSpec.demo_sdk) RouteScenario.demo_prompts
      [ProviderSpec.groq_client; ProviderSpec.openai_client] None RouteScenario.first_message
      StoreSpec.full_store 0%nat
    = (Sent resp, st', w').
Proof.
  destruct (shipped_route_answers_or_503 ProviderSpec.demo_sdk RouteScenario.demo_prompts
              [ProviderSpec.groq_client; ProviderSpec.openai_client] None
              RouteScenario.first_message StoreSpec.full_store 0%nat)
    as [H | (rest & st' & w' & H)].
  - repeat constructor; discriminate.
  - cbn; lia.
  - exact H.
  - discriminate H.
Defined.

End RouteFacts.

(** ** Deleting a session *)

Module DeleteFacts.
Import LLM Products Storage StoreSpec RedisSpec PyDictFacts.

(** Deleting a key of a dictionary takes away one entry. *)
Lemma length_del_present {V : Type} (d : list (string * V)) (k : string) :
  PyDict.wf d -> In k (List.map fst d) -> S (length (PyDict.del d k)) = length d.
Proof.
  intros Hwf Hin. apply in_map_iff in Hin as ([k' v] & Hk & Hin). cbn in Hk. subst k'.
  apply in_split in Hin as (d1 & d2 & ->).
  rewrite (del_split _ _ _ _ Hwf). rewrite !length_app. cbn. lia.
Qed.

(** X23: [delete] on either store. It answers [True] exactly when a
    session was there (for Redis: a record that has not expired), the
    session is gone afterwards, and every other session stays as it was.
    The in-memory store, holding no key twice, gets smaller by exactly one
    entry when the answer is [True] and is unchanged otherwise. *)
Theorem delete_removes_that_session_only (mem : InMemory.InMemorySessionStorage)
    (codec : DateCodec) (red : Redis.RedisSessionStorage) (now : Z)
    (sid : string) (p : ProductType) :
  PyDict.wf (InMemory._sessions mem) ->
  let (deleted, mem') := InMemory.delete mem sid p in
  let (removed, red') := Redis.delete red now sid p in
  (deleted = true <-> is_Some (InMemory.get mem sid p))
  /\ InMemory.get mem' sid p = None
  /\ (forall sid' p', (sid', p') <> (sid, p) ->
        InMemory.get mem' sid' p' = InMemory.get mem sid' p')
  /\ (deleted = true -> S (size mem') = size mem)
  /\ (deleted = false -> mem' = mem)
  /\ (removed = true <-> present red now sid p)
  /\ (forall later, Redis.get codec red' later sid p = Ok None)
  /\ (forall later sid' p', (sid', p') <> (sid, p) ->
        Redis.get codec red' later sid' p' = Redis.get codec red later sid' p').
Proof.
  intros Hwf.
  destruct (InMemory.delete mem sid p) as [deleted mem'] eqn:Hd.
  destruct (Redis.delete red now sid p) as [removed red'] eqn:Hr.
  assert (Hmem : (deleted = true <-> is_Some (InMemory.get mem sid p))
                 /\ InMemory.get mem' sid p = None
                 /\ (forall sid' p', (sid', p') <> (sid, p) ->
                       InMemory.get mem' sid' p' = InMemory.get mem sid' p')
                 /\ (deleted = true -> S (size mem') = size mem)
                 /\ (deleted = false -> mem' = mem)).
  { unfold InMemory.delete, PyDict.mem in Hd. unfold InMemory.get, size.
    destruct (PyDict.get (InMemory._sessions mem) (InMemory._make_key sid p)) as [s|] eqn:Hg;
      injection Hd as <- <-; cbn [InMemory._sessions].
    - split; [split; eauto|]. split; [apply get_del_eq|].
      split.
      { intros sid' p' Hne. apply get_del_ne. intros E.
        apply StoreMore.memory_key_inj in E as [-> ->]. now apply Hne. }
      split; [|discriminate].
      intros _. apply length_del_present; [exact Hwf|].
      apply mem_true. unfold PyDict.mem. now rewrite Hg.
    - split; [split; [discriminate | intros [? ?]; discriminate]|].
      split; [exact Hg|]. split; [reflexivity|]. split; [discriminate | reflexivity]. }
  destruct Hmem as (H1 & H2 & H3 & H4 & H5).
  split; [exact H1|]. split; [exact H2|]. split; [exact H3|]. split; [exact H4|].
  split; [exact H5|].
  pose proof (RedisFacts.delete_spec codec red now sid p) as (Hp & Hn & Hgone).
  rewrite Hr in Hp, Hn, Hgone. cbn [fst snd] in Hp, Hn, Hgone.
  split.
  { split; [|exact Hp]. intros Ht.
    destruct (Redis.client_get (Redis.keyspace red) now (Redis._make_key sid p)) eqn:Hc.
    - unfold present. rewrite Hc. eauto.
    - rewrite Hn in Ht; [discriminate|]. unfold present. rewrite Hc. intros [? ?]; discriminate. }
  split; [exact Hgone|].
  intros later sid' p' Hne.
  unfold Redis.delete, Redis.client_delete in Hr.
  assert (Hks : Redis.keyspace red' = delete (Redis._make_key sid p) (Redis.keyspace red)).
  { destruct (Redis.client_get _ _ _); injection Hr as _ <-; reflexivity. }
  unfold Redis.get, Redis.client_get. rewrite Hks.
  rewrite lookup_delete_ne; [reflexivity|].
  intros E. apply StoreMore.redis_key_inj in E as [-> ->]. now apply Hne.
Qed.

(** X23, instance: the session [s2] deleted from the full in-memory store
    and from an empty Redis store. *)
Lemma delete_removes_that_session_only_witness :
  fst (InMemory.delete full_store "s2" CHATBOT) = true
  /\ size (snd (InMemory.delete full_store "s2" CHATBOT)) = 1%nat
  /\ InMemory.get (snd (InMemory.delete full_store "s2" CHATBOT)) "s1" CHATBOT
     = InMemory.get full_store "s1" CHATBOT.
Proof.
  assert (Hwf : PyDict.wf (InMemory._sessions full_store)).
  { unfold PyDict.wf. cbn.
    repeat (apply NoDup_cons; split; [rewrite list_elem_of_In; cbn; intuition discriminate|]).
    apply NoDup_nil_2. }
  pose proof (delete_removes_that_session_only full_store decimal_codec (Redis.init 86400) 0
                "s2" CHATBOT Hwf) as H.
  destruct (InMemory.delete full_store "s2" CHATBOT) as [deleted mem'].
  destruct (Redis.delete (Redis.init 86400) 0 "s2" CHATBOT) as [removed red'].
  destruct H as (Hd & _ & Hother & Hsize & _).
  cbn [fst snd].
  assert (Ht : deleted = true) by (apply Hd; eexists; reflexivity).
  split; [exact Ht|]. split.
  - specialize (Hsize Ht). cbn in Hsize. lia.
  - apply Hother. discriminate.
Defined.

End DeleteFacts.
